(** * KS3 uploader: resumable multipart upload (upload_large_file.py)

    A shallow embedding of [KS3Uploader] from [src/upload_large_file.py] and
    the properties of its resumable multipart routine.  ([src/upload.py] is
    the same class without the multipart branch: its [upload_file] is the
    single-shot branch of the one modelled here.)

    Modelling choices.
    - Python integers are [Z]; [//] with a positive divisor is [Z.div].
    - The local disk is a finite map from paths to files.  The bytes of a
      file are never inspected by the uploader, only their number
      ([os.path.getsize], [len(f.read(n))]), so a file is its length together
      with what [json.load] makes of it.
    - The KS3 service, whose SDK is not part of the sources, is a record of
      replies ([world]); every remote call either returns or raises.  The
      reply to [upload_part_from_file] may depend on the attempt number, so
      that a part can fail twice and then be accepted.
    - Calls on the local disk made by the uploader go through unless the
      path is absent ([open], [os.remove]) or the text is not a resume
      record ([json.load]).
    - Effects are a state-and-exception monad over the disk that also
      collects the observable events (console lines, remote calls, writes,
      sleeps) in the order they happen. *)

From stdpp Require Import gmap strings list sorting.
From Stdlib Require Import ZArith Lia Ascii.

Open Scope Z_scope.

(** ** Chunk plan (lines 59-60, 88-95) *)

Definition part_size : Z := 50 * 1024 * 1024.

Definition part_count (file_size : Z) : Z :=
  (file_size + part_size - 1) / part_size.

(** [range(n)] *)
Definition range (n : Z) : list Z := Z.of_nat <$> seq 0 (Z.to_nat n).

Definition part_offset (i : Z) : Z := i * part_size.

(** The argument of [f.read] for loop index [i]. *)
Definition part_len (file_size i : Z) : Z :=
  Z.min part_size (file_size - part_offset i).



Definition sum_list (l : list Z) : Z := foldr Z.add 0 l.

(** ** Strings: [os.path.basename], [str.strip] *)

Definition slash : ascii := "/"%char.
Definition dquote : ascii := ascii_of_nat 34.

(** [s.rfind(c)]: the index of the last [c] in [s], [-1] when there is none. *)
Fixpoint rfind (c : ascii) (s : string) : Z :=
  match s with
  | EmptyString => -1
  | String a s' =>
      let r := rfind c s' in
      if 0 <=? r then r + 1 else if Ascii.eqb a c then 0 else -1
  end.

(** [s[n:]] *)
Fixpoint drop_string (n : nat) (s : string) : string :=
  match n, s with
  | O, _ => s
  | S n', String _ s' => drop_string n' s'
  | S _, EmptyString => EmptyString
  end.

(** [posixpath.basename]: [i = p.rfind('/') + 1; return p[i:]]. *)
Definition basename (p : string) : string :=
  let i := rfind slash p + 1 in
  drop_string (Z.to_nat i) p.

Fixpoint lstrip (c : ascii) (s : string) : string :=
  match s with
  | EmptyString => EmptyString
  | String a s' => if Ascii.eqb a c then lstrip c s' else s
  end.

Definition rstrip (c : ascii) (s : string) : string :=
  String.rev (lstrip c (String.rev s)).

(** [s.strip(c)] for a one-character set. *)
Definition strip (c : ascii) (s : string) : string := rstrip c (lstrip c s).

Fixpoint has_char (c : ascii) (s : string) : bool :=
  match s with
  | EmptyString => false
  | String a s' => Ascii.eqb a c || has_char c s'
  end.

(** Line 61. *)
Definition resume_path (local_path : string) : string :=
  ".resume_" +:+ basename local_path +:+ ".json".

(** ** Data model *)

(** One entry of [resume_data['parts']]. *)
Record part_record := PartRecord { part_num : Z; etag : string; size : Z }.

(** The resume record [{"upload_id": ..., "parts": [...]}]. *)
Record resume_data := ResumeData { upload_id : string; parts : list part_record }.

(** A file on the local disk: its length in bytes, and the resume record
    that [json.load] and the field accesses of lines 65-67 and 87 read from
    it ([None] when one of them raises). *)
Record file := File { f_len : Z; f_json : option resume_data }.

Abbreviation disk := (gmap string file).

(** A multipart session as listed by the service. *)
Record session := Session { s_key : string; s_id : string }.

Inductive exn :=
| FileNotFoundError (path : string)
| ValueError (missing : list string)
| JSONDecodeError (path : string)
| ServiceError (code : Z).

Inductive result (A : Type) :=
| Ok (a : A)
| Raise (e : exn).
Arguments Ok {A} a.
Arguments Raise {A} e.

(** Everything the uploader talks to that is not in the sources: the
    replies of the KS3 SDK and the length of the text [json.dump] writes. *)
Record world := World {
  ks3_get_bucket : string → result unit;
  ks3_initiate_multipart_upload : string → result string;
  ks3_get_all_multipart_uploads : string → result (list session);
  (* session, part_num, len(data), attempt: the [ETag] header if any *)
  ks3_upload_part_from_file : session → Z → Z → nat → result (option string);
  ks3_cancel_upload : session → result unit;
  ks3_complete_upload : session → result unit;
  (* remote_key, local_path *)
  ks3_set_contents_from_filename : string → string → result unit;
  (* object_key: [None] when [get_key] finds nothing, else the url *)
  ks3_generate_url : string → result (option string);
  json_len : resume_data → Z
}.

Inductive message :=
| MsgBucket (bucket_name : string)
| MsgLocalPath (local_path : string)
| MsgRemotePath (remote_key : string) (file_size : Z)
| MsgUploadOk
| MsgUploadFailed (e : exn)
| MsgResumeFound
| MsgSessionNotFound
| MsgPartRetry (part_num : Z) (n : Z) (e : exn)
| MsgPartGiveUp (part_num : Z)
| MsgMultipartOk
| MsgUri (uri : string)
| MsgKeyNotFound (object_key : string)
| MsgPresignFailed (e : exn)
| MsgUrlHeader
| MsgUrl (url : string)
| MsgError (e : exn).

Inductive event :=
| EvPrint (m : message)
| EvGetBucket (name : string) (r : result unit)
| EvInitiate (remote_key : string) (r : result string)
| EvListUploads (prefix : string) (r : result (list session))
| EvUploadPart (s : session) (part_num len : Z) (attempt : nat)
    (r : result (option string))
| EvCancel (s : session) (r : result unit)
| EvComplete (s : session) (r : result unit)
| EvPut (remote_key local_path : string) (r : result unit)
| EvGenerateUrl (object_key : string) (r : result (option string))
| EvWrite (path : string) (rd : resume_data)
| EvRemove (path : string)
| EvProgress (n : Z)
| EvSleep (secs : Z).

(** ** The monad *)

Definition M (A : Type) : Type := disk → result A * disk * list event.

Definition ret {A} (a : A) : M A := λ d, (Ok a, d, []).

Definition bind {A B} (m : M A) (k : A → M B) : M B :=
  λ d,
    match m d with
    | (Ok a, d1, t1) =>
        match k a d1 with
        | (r, d2, t2) => (r, d2, t1 ++ t2)
        end
    | (Raise e, d1, t1) => (Raise e, d1, t1)
    end.

Definition raise {A} (e : exn) : M A := λ d, (Raise e, d, []).

(** [try: m except Exception as e: ...]: the outcome of [m] is handed to the
    continuation; what [m] did to the disk before raising stays done. *)
Definition try {A} (m : M A) : M (result A) :=
  λ d, match m d with (r, d1, t1) => (Ok r, d1, t1) end.

Definition emit (e : event) : M unit := λ d, (Ok tt, d, [e]).

(** A call to the service: its reply is logged and returned or raised. *)
Definition call {A} (ev : result A → event) (r : result A) : M A :=
  λ d, (r, d, [ev r]).

Notation "'do' x <- m ; k" := (bind m (λ x, k))
  (at level 10, x name, m at level 100, k at level 200).

Definition print (m : message) : M unit := emit (EvPrint m).
Definition sleep (secs : Z) : M unit := emit (EvSleep secs).
Definition pbar_update (n : Z) : M unit := emit (EvProgress n).

(** [os.path.exists] *)
Definition path_exists (path : string) : M bool :=
  λ d, (Ok (bool_decide (is_Some (d !! path))), d, []).

(** [os.path.getsize] *)
Definition getsize (path : string) : M Z :=
  λ d, match d !! path with
       | Some f => (Ok (f_len f), d, [])
       | None => (Raise (FileNotFoundError path), d, [])
       end.

(** [with open(path, 'r') as f: json.load(f)] and the reading of the
    fields. *)
Definition load_resume (path : string) : M resume_data :=
  λ d, match d !! path with
       | Some f =>
           match f_json f with
           | Some rd => (Ok rd, d, [])
           | None => (Raise (JSONDecodeError path), d, [])
           end
       | None => (Raise (FileNotFoundError path), d, [])
       end.

(** [os.remove]: raises when the path does not exist. *)
Definition os_remove (path : string) : M unit :=
  λ d, match d !! path with
       | Some _ => (Ok tt, delete path d, [EvRemove path])
       | None => (Raise (FileNotFoundError path), d, [])
       end.

(** [open(path, 'rb')]: the handle is the length of the file. *)
Definition open_rb (path : string) : M Z := getsize path.

(** [f.seek(offset); len(f.read(n))] on a file of [flen] bytes; a negative
    [n] reads to the end of the file. *)
Definition read_len (flen offset n : Z) : Z :=
  let rest := Z.max 0 (flen - offset) in
  if n <? 0 then rest else Z.min n rest.

(** ** [uploaded_parts]: a dict keyed by part number, in insertion order *)

Abbreviation dict := (list (Z * part_record)).

(** [d[k] = v]: an existing key keeps its place. *)
Fixpoint dict_set (k : Z) (v : part_record) (d : dict) : dict :=
  match d with
  | [] => [(k, v)]
  | (k', v') :: d' =>
      if k' =? k then (k, v) :: d' else (k', v') :: dict_set k v d'
  end.

(** [k in d] *)
Definition dict_mem (k : Z) (d : dict) : bool :=
  existsb (λ kv, kv.1 =? k) d.

(** [list(d.values())] *)
Definition dict_values (d : dict) : list part_record := snd <$> d.

(** Line 67: [{int(p['part_num']): p for p in resume_data['parts']}]. *)
Definition uploaded_parts_of (ps : list part_record) : dict :=
  foldl (λ d p, dict_set (part_num p) p d) [] ps.

(** The two lists the loop appends to: [parts] and [resume_data]. *)
Record locals := Locals { l_parts : list part_record; l_resume_data : resume_data }.

Definition append_part (p : part_record) (st : locals) : locals :=
  Locals (l_parts st ++ [p])
         (ResumeData (upload_id (l_resume_data st))
                     (parts (l_resume_data st) ++ [p])).

(** ** [KS3Uploader] *)

Section Uploader.

Variable w : world.
Variable bucket_name : string.

(** [with open(resume_path, 'w') as f: json.dump(resume_data, f)] *)
Definition write_resume (path : string) (rd : resume_data) : M unit :=
  λ d, (Ok tt, <[path := File (json_len w rd) (Some rd)]> d, [EvWrite path rd]).

(** Lines 99-113, the body of [try]. *)
Definition upload_part (mp : session) (rpath : string) (part_num data_len : Z)
    (attempt : nat) (st : locals) : M locals :=
  do part <- call (EvUploadPart mp part_num data_len attempt)
               (ks3_upload_part_from_file w mp part_num data_len attempt);
  let etag := strip dquote (default "" part) in
  let st' := append_part (PartRecord part_num etag data_len) st in
  do _ <- write_resume rpath (l_resume_data st');
  do _ <- pbar_update data_len;
  ret st'.

(** Lines 97-117, [for attempt in range(3)]: [Some] at [break], [None] when
    the loop runs out and its [else] is to be taken. *)
Fixpoint attempts (atts : list nat) (mp : session) (rpath : string)
    (part_num data_len : Z) (st : locals) : M (option locals) :=
  match atts with
  | [] => ret None
  | attempt :: rest =>
      do r <- try (upload_part mp rpath part_num data_len attempt st);
      match r with
      | Ok st' => ret (Some st')
      | Raise e =>
          do _ <- print (MsgPartRetry part_num (Z.of_nat attempt + 1) e);
          do _ <- sleep (2 ^ Z.of_nat attempt);
          attempts rest mp rpath part_num data_len st
      end
  end.

(** Lines 88-121, [for i in range(part_count)]: [None] when the function
    returned [None] from inside the loop. *)
Fixpoint part_loop (idx : list Z) (mp : session) (rpath : string)
    (file_size flen : Z) (uploaded_parts : dict) (st : locals)
    : M (option locals) :=
  match idx with
  | [] => ret (Some st)
  | i :: rest =>
      let part_num := i + 1 in
      if dict_mem part_num uploaded_parts
      then part_loop rest mp rpath file_size flen uploaded_parts st
      else
        let offset := part_offset i in
        let data_len := read_len flen offset (part_len file_size i) in
        do r <- attempts (seq 0 3) mp rpath part_num data_len st;
        match r with
        | Some st' => part_loop rest mp rpath file_size flen uploaded_parts st'
        | None =>
            do _ <- print (MsgPartGiveUp part_num);
            do _ <- call (EvCancel mp) (ks3_cancel_upload w mp);
            ret None
        end
  end.

(** Lines 63-75. *)
Definition load_or_create (rpath remote_key : string)
    : M (string * dict * resume_data) :=
  do found <- path_exists rpath;
  if found then
    do rd <- load_resume rpath;
    do _ <- print MsgResumeFound;
    ret (upload_id rd, uploaded_parts_of (parts rd), rd)
  else
    do id <- call (EvInitiate remote_key)
               (ks3_initiate_multipart_upload w remote_key);
    let rd := ResumeData id [] in
    do _ <- write_resume rpath rd;
    ret (id, [], rd).

(** Lines 77-78. *)
Definition find_session (remote_key uid : string) : M (option session) :=
  do l <- call (EvListUploads remote_key)
            (ks3_get_all_multipart_uploads w remote_key);
  ret (List.find (λ x, String.eqb (s_id x) uid) l).

Definition object_address (remote_key : string) : string :=
  "ks3://" +:+ bucket_name +:+ "/" +:+ remote_key.

(** Lines 58-127. *)
Definition multipart_upload_with_resume (local_path remote_key : string)
    (file_size : Z) : M (option string) :=
  let rpath := resume_path local_path in
  do loaded <- load_or_create rpath remote_key;
  let '(uid, uploaded_parts, rd) := loaded in
  do mp <- find_session remote_key uid;
  match mp with
  | None =>
      do _ <- print MsgSessionNotFound;
      ret None
  | Some mp =>
      let ps := dict_values uploaded_parts in
      do flen <- open_rb local_path;
      do _ <- pbar_update (sum_list (size <$> ps));
      do r <- part_loop (range (part_count file_size)) mp rpath file_size flen
                uploaded_parts (Locals ps rd);
      match r with
      | None => ret None
      | Some _ =>
          do _ <- call (EvComplete mp) (ks3_complete_upload w mp);
          do _ <- os_remove rpath;
          do _ <- print MsgMultipartOk;
          ret (Some (object_address remote_key))
      end
  end.

(** Lines 33-56. *)
Definition upload_file (local_path remote_key : string) : M (option string) :=
  do found <- path_exists local_path;
  if negb found then raise (FileNotFoundError local_path)
  else
    do file_size <- getsize local_path;
    do _ <- print (MsgBucket bucket_name);
    do _ <- print (MsgLocalPath local_path);
    do _ <- print (MsgRemotePath remote_key file_size);
    if 100 * 1024 * 1024 <? file_size
    then multipart_upload_with_resume local_path remote_key file_size
    else
      do r <- try (do _ <- call (EvPut remote_key local_path)
                             (ks3_set_contents_from_filename w remote_key local_path);
                   do _ <- print MsgUploadOk;
                   ret (Some (object_address remote_key)));
      match r with
      | Ok v => ret v
      | Raise e =>
          do _ <- print (MsgUploadFailed e);
          ret None
      end.

(** Lines 129-139. *)
Definition generate_presigned_url (object_key : string) : M (option string) :=
  do r <- try (do url <- call (EvGenerateUrl object_key)
                           (ks3_generate_url w object_key);
               match url with
               | None =>
                   do _ <- print (MsgKeyNotFound object_key);
                   ret None
               | Some u => ret (Some u)
               end);
  match r with
  | Ok v => ret v
  | Raise e =>
      do _ <- print (MsgPresignFailed e);
      ret None
  end.

End Uploader.

(** [os.getenv(var)] is falsy when the variable is unset or empty. *)
Definition getenv_set (environ : gmap string string) (var : string) : bool :=
  match environ !! var with
  | Some v => negb (String.eqb v "")
  | None => false
  end.

Definition required_vars : list string :=
  ["KS3_ACCESS_KEY"; "KS3_SECRET_KEY"; "KS3_ENDPOINT"; "KS3_BUCKET"].

(** Lines 27-31. *)
Definition _validate_config (environ : gmap string string) : M unit :=
  let missing := List.filter (λ var, negb (getenv_set environ var)) required_vars in
  match missing with
  | [] => ret tt
  | _ :: _ => raise (ValueError missing)
  end.

(** Lines 13-25; the uploader built is its bucket name. *)
Definition __init__ (w : world) (environ : gmap string string) : M string :=
  do _ <- _validate_config environ;
  let bucket_name := default "" (environ !! "KS3_BUCKET") in
  do _ <- call (EvGetBucket bucket_name) (ks3_get_bucket w bucket_name);
  ret bucket_name.

(** Truth value of an optional string. *)
Definition truthy (s : option string) : bool :=
  match s with
  | Some v => negb (String.eqb v "")
  | None => false
  end.

(** Lines 141-157. *)
Definition main (w : world) (environ : gmap string string)
    (local_file ks3_path : string) : M unit :=
  do r <- try (do bucket_name <- __init__ w environ;
               do result <- upload_file w bucket_name local_file ks3_path;
               if truthy result then
                 do _ <- print (MsgUri (default "" result));
                 do url <- generate_presigned_url w ks3_path;
                 if truthy url then
                   do _ <- print MsgUrlHeader;
                   print (MsgUrl (default "" url))
                 else ret tt
               else ret tt);
  match r with
  | Ok _ => ret tt
  | Raise e => print (MsgError e)
  end.

(** ** Runs and what can be observed of them *)

Definition outcome {A} (x : result A * disk * list event) : result A := x.1.1.
Definition final_disk {A} (x : result A * disk * list event) : disk := x.1.2.
Definition trace {A} (x : result A * disk * list event) : list event := x.2.

(** The record lines 101-110 build for an acknowledged part. *)
Definition record_of (n len : Z) (hdr : option string) : part_record :=
  PartRecord n (strip dquote (default "" hdr)) len.

(** The records of the parts a trace shows acknowledged, in order. *)
Definition ack_of (e : event) : option part_record :=
  match e with
  | EvUploadPart _ n len _ (Ok hdr) => Some (record_of n len hdr)
  | _ => None
  end.
Definition acks (t : list event) : list part_record := omap ack_of t.

(** The part numbers of all upload attempts of a trace, in order. *)
Definition upload_of (e : event) : option Z :=
  match e with
  | EvUploadPart _ n _ _ _ => Some n
  | _ => None
  end.
Definition uploads (t : list event) : list Z := omap upload_of t.

Definition progress_of (e : event) : option Z :=
  match e with
  | EvProgress n => Some n
  | _ => None
  end.
Definition progress (t : list event) : list Z := omap progress_of t.

(** The parts of the resume record found on the disk, none when there is
    no readable record. *)
Definition recorded_parts (d : disk) (rpath : string) : list part_record :=
  match d !! rpath with
  | Some f => match f_json f with Some rd => parts rd | None => [] end
  | None => []
  end.

(** The parts left to upload: those of [1..part_count] not recorded. *)
Definition todo (recorded : list Z) (file_size : Z) : list Z :=
  filter (λ n, n ∉ recorded) ((λ i, i + 1) <$> range (part_count file_size)).


(** A record with more parts appended. *)
Definition with_parts (rd : resume_data) (ps : list part_record) : resume_data :=
  ResumeData (upload_id rd) (parts rd ++ ps).

(** The file [json.dump] leaves for a record. *)
Definition record_file (w : world) (rd : resume_data) : file :=
  File (json_len w rd) (Some rd).

(** [len(data)] for loop index [i]. *)
Definition data_len (file_size flen i : Z) : Z :=
  read_len flen (part_offset i) (part_len file_size i).

(** The events of a failed attempt: the call, line 116 and line 117. *)
Definition failed_attempt (mp : session) (n len : Z) (a : nat) (e : exn)
    : list event :=
  [EvUploadPart mp n len a (Raise e);
   EvPrint (MsgPartRetry n (Z.of_nat a + 1) e);
   EvSleep (2 ^ Z.of_nat a)].

Fixpoint failed_attempts (mp : session) (n len : Z) (a : nat) (es : list exn)
    : list event :=
  match es with
  | [] => []
  | e :: es' => failed_attempt mp n len a e ++ failed_attempts mp n len (S a) es'
  end.

(** The events of an accepted attempt: the call, lines 111-112 and 113. *)
Definition acked_attempt (mp : session) (rpath : string) (n len : Z) (a : nat)
    (hdr : option string) (rd : resume_data) : list event :=
  [EvUploadPart mp n len a (Ok hdr); EvWrite rpath rd; EvProgress len].

Definition find_by_id (uid : string) (l : list session) : option session :=
  List.find (λ x, String.eqb (s_id x) uid) l.

(** *** The runs of the part loop, case by case *)

Section LoopShape.
Context (w : world) (mp : session) (rpath : string).
Context (file_size flen : Z) (up : dict).

(** Attempts [a], [a+1], ... of part [n] raised the exceptions [es]. *)
Definition all_failed (n len : Z) (a : nat) (es : list exn) : Prop :=
  ∀ (j : nat) e, es !! j = Some e →
    ks3_upload_part_from_file w mp n len (a + j) = Raise e.

Inductive loop_shape : list Z → locals → disk →
    result (option locals) → disk → list event → Prop :=
| loop_end st d :
    loop_shape [] st d (Ok (Some st)) d []
| loop_skip i idx st d r d' t :
    dict_mem (i + 1) up = true →
    loop_shape idx st d r d' t →
    loop_shape (i :: idx) st d r d' t
| loop_ack i idx st d r d' t es hdr st1 :
    dict_mem (i + 1) up = false →
    (length es < 3)%nat →
    all_failed (i + 1) (data_len file_size flen i) 0 es →
    ks3_upload_part_from_file w mp (i + 1) (data_len file_size flen i) (length es)
      = Ok hdr →
    st1 = append_part (record_of (i + 1) (data_len file_size flen i) hdr) st →
    loop_shape idx st1 (<[rpath := record_file w (l_resume_data st1)]> d) r d' t →
    loop_shape (i :: idx) st d r d'
      (failed_attempts mp (i + 1) (data_len file_size flen i) 0 es
         ++ acked_attempt mp rpath (i + 1) (data_len file_size flen i)
              (length es) hdr (l_resume_data st1)
         ++ t)
| loop_give_up i idx st d es :
    dict_mem (i + 1) up = false →
    length es = 3%nat →
    all_failed (i + 1) (data_len file_size flen i) 0 es →
    loop_shape (i :: idx) st d
      (match ks3_cancel_upload w mp with Ok _ => Ok None | Raise e => Raise e end)
      d
      (failed_attempts mp (i + 1) (data_len file_size flen i) 0 es
         ++ [EvPrint (MsgPartGiveUp (i + 1));
             EvCancel mp (ks3_cancel_upload w mp)]).

(** What the loop over [idx] can do. *)
Definition loop_event (idx : list Z) (e : event) : Prop :=
  match e with
  | EvUploadPart mp' n len a r =>
      mp' = mp ∧ n - 1 ∈ idx ∧ len = data_len file_size flen (n - 1) ∧
      dict_mem n up = false ∧ (a < 3)%nat ∧
      r = ks3_upload_part_from_file w mp n len a
  | EvWrite p _ => p = rpath
  | EvCancel mp' r => mp' = mp ∧ r = ks3_cancel_upload w mp
  | EvPrint (MsgPartRetry _ _ _) | EvPrint (MsgPartGiveUp _)
  | EvProgress _ | EvSleep _ => True
  | _ => False
  end.

End LoopShape.

(** *** The runs of [multipart_upload_with_resume], case by case *)

Section RunShape.
Context (w : world) (bucket_name : string).
Context (local_path remote_key : string) (file_size : Z).

(** Lines 63-75 went through: fresh session or resumed record. *)
Inductive started (d : disk) : resume_data → disk → list event → Prop :=
| start_fresh uid :
    d !! resume_path local_path = None →
    ks3_initiate_multipart_upload w remote_key = Ok uid →
    started d (ResumeData uid [])
      (<[resume_path local_path := record_file w (ResumeData uid [])]> d)
      [EvInitiate remote_key (Ok uid);
       EvWrite (resume_path local_path) (ResumeData uid [])]
| start_resume f rd :
    d !! resume_path local_path = Some f →
    f_json f = Some rd →
    started d rd d [EvPrint MsgResumeFound].

(** Lines 123-127 after the loop. *)
Inductive finish_shape (mp : session) :
    result (option locals) → disk →
    result (option string) → disk → list event → Prop :=
| finish_raised e dL :
    finish_shape mp (Raise e) dL (Raise e) dL []
| finish_aborted dL :
    finish_shape mp (Ok None) dL (Ok None) dL []
| finish_complete_failed st dL e :
    ks3_complete_upload w mp = Raise e →
    finish_shape mp (Ok (Some st)) dL (Raise e) dL [EvComplete mp (Raise e)]
| finish_done st dL :
    ks3_complete_upload w mp = Ok tt →
    is_Some (dL !! resume_path local_path) →
    finish_shape mp (Ok (Some st)) dL
      (Ok (Some (object_address bucket_name remote_key)))
      (delete (resume_path local_path) dL)
      [EvComplete mp (Ok tt); EvRemove (resume_path local_path);
       EvPrint MsgMultipartOk].

Inductive run_shape (d : disk) :
    result (option string) → disk → list event → Prop :=
| run_bad_record f :
    d !! resume_path local_path = Some f →
    f_json f = None →
    run_shape d (Raise (JSONDecodeError (resume_path local_path))) d []
| run_initiate_failed e :
    d !! resume_path local_path = None →
    ks3_initiate_multipart_upload w remote_key = Raise e →
    run_shape d (Raise e) d [EvInitiate remote_key (Raise e)]
| run_list_failed rd d1 t1 e :
    started d rd d1 t1 →
    ks3_get_all_multipart_uploads w remote_key = Raise e →
    run_shape d (Raise e) d1 (t1 ++ [EvListUploads remote_key (Raise e)])
| run_session_missing rd d1 t1 l :
    started d rd d1 t1 →
    ks3_get_all_multipart_uploads w remote_key = Ok l →
    find_by_id (upload_id rd) l = None →
    run_shape d (Ok None) d1
      (t1 ++ [EvListUploads remote_key (Ok l); EvPrint MsgSessionNotFound])
| run_no_file rd d1 t1 l mp :
    started d rd d1 t1 →
    ks3_get_all_multipart_uploads w remote_key = Ok l →
    find_by_id (upload_id rd) l = Some mp →
    d1 !! local_path = None →
    run_shape d (Raise (FileNotFoundError local_path)) d1
      (t1 ++ [EvListUploads remote_key (Ok l)])
| run_loop rd d1 t1 l mp f rL dL tL r d' tF :
    started d rd d1 t1 →
    ks3_get_all_multipart_uploads w remote_key = Ok l →
    find_by_id (upload_id rd) l = Some mp →
    d1 !! local_path = Some f →
    loop_shape w mp (resume_path local_path) file_size (f_len f)
      (uploaded_parts_of (parts rd))
      (range (part_count file_size))
      (Locals (dict_values (uploaded_parts_of (parts rd))) rd) d1 rL dL tL →
    finish_shape mp rL dL r d' tF →
    run_shape d r d'
      (t1 ++ [EvListUploads remote_key (Ok l);
              EvProgress (sum_list (size <$> dict_values (uploaded_parts_of (parts rd))))]
          ++ tL ++ tF).

End RunShape.

(** Every acknowledged upload in [t] is followed at once by a write of the
    record to [rpath], the record being [base], the parts acknowledged
    before in [t], and the new part. *)
Fixpoint ack_written (rpath : string) (base : list part_record)
    (t : list event) : Prop :=
  match t with
  | [] => True
  | e :: t' =>
      match ack_of e with
      | Some p =>
          (∃ rd t'', t' = EvWrite rpath rd :: t'' ∧ parts rd = base ++ [p]) ∧
          ack_written rpath (base ++ [p]) t'
      | None => ack_written rpath base t'
      end
  end.

(** The events of a run that stops before the part loop. *)
Definition start_event (e : event) : Prop :=
  match e with
  | EvInitiate _ _ | EvWrite _ _ | EvListUploads _ _
  | EvPrint MsgResumeFound | EvPrint MsgSessionNotFound => True
  | _ => False
  end.

(** The events that occur outside the part loop. *)
Definition outer_event (e : event) : Prop :=
  match e with
  | EvInitiate _ _ | EvWrite _ _ | EvListUploads _ _ | EvProgress _
  | EvComplete _ _ | EvRemove _
  | EvPrint MsgResumeFound | EvPrint MsgSessionNotFound
  | EvPrint MsgMultipartOk => True
  | _ => False
  end.

(** The size above which [upload_file] goes multipart (line 42). *)
Definition threshold : Z := 100 * 1024 * 1024.

(** The writes and removals of a run that touch [rpath] only. *)
Definition touches_only (rpath : string) (e : event) : Prop :=
  match e with
  | EvWrite p _ | EvRemove p => p = rpath
  | _ => True
  end.

(** ** Example runs *)

Module Examples.

Definition MiB : Z := 1024 * 1024.

(** A service with one session [uid-1] per key, whose part uploads and
    completion answer as given. *)
Definition service
    (upload : Z → nat → result (option string))
    (complete : result unit) (listed : bool) : world :=
  World (λ _, Ok tt)
        (λ _, Ok "uid-1")
        (λ key, Ok (if listed then [Session "other" "uid-0"; Session key "uid-1"]
                    else [Session "other" "uid-0"]))
        (λ _ n _ a, upload n a)
        (λ _, Ok tt)
        (λ _, complete)
        (λ _ _, Ok tt)
        (λ _, Ok (Some "https://ks3.example/big.bin"))
        (λ _, 0).

Definition accept : Z → nat → result (option string) :=
  λ _ _, Ok (Some "abc").

(** Part 2 is refused twice, then accepted. *)
Definition flaky : Z → nat → result (option string) :=
  λ n a, if (n =? 2) && (a <? 2)%nat then Raise (ServiceError 500)
         else Ok (Some "abc").

(** Part 3 is always refused. *)
Definition broken : Z → nat → result (option string) :=
  λ n a, if n =? 3 then Raise (ServiceError 500) else Ok (Some "abc").

Definition big : string := "/data/big.bin".
Definition key : string := "backups/big.bin".
Definition mp1 : session := Session key "uid-1".

(** A 130 MiB file and nothing else. *)
Definition disk0 : disk := {[ big := File (130 * MiB) None ]}.

(** A 200 MiB file with parts 1 and 2 of 4 recorded. *)
Definition record12 : resume_data :=
  ResumeData "uid-1" [PartRecord 1 "e1" (50 * MiB); PartRecord 2 "e2" (50 * MiB)].
Definition disk12 : disk :=
  {[ big := File (200 * MiB) None;
     ".resume_big.bin.json" := File 120 (Some record12) ]}.


End Examples.

(** ** [upload.py] *)

(** [src/upload.py] has the same class without the multipart routine; its
    [_validate_config], [generate_presigned_url] and [main] are, line for
    line, those modelled above.  Its [upload_file] (lines 30-51) transfers
    every file in one request. *)
Module UploadPy.

Definition upload_file (w : world) (bucket_name local_path remote_key : string)
    : M (option string) :=
  do found <- path_exists local_path;
  if negb found then raise (FileNotFoundError local_path)
  else
    do file_size <- getsize local_path;
    do _ <- print (MsgBucket bucket_name);
    do _ <- print (MsgLocalPath local_path);
    do _ <- print (MsgRemotePath remote_key file_size);
    do r <- try (do _ <- call (EvPut remote_key local_path)
                           (ks3_set_contents_from_filename w remote_key local_path);
                 do _ <- print MsgUploadOk;
                 ret (Some (object_address bucket_name remote_key)));
    match r with
    | Ok v => ret v
    | Raise e =>
        do _ <- print (MsgUploadFailed e);
        ret None
    end.

End UploadPy.

(** ** More to observe of a run *)

(** The sleeps of a trace, in order. *)
Definition sleep_of (e : event) : option Z :=
  match e with
  | EvSleep s => Some s
  | _ => None
  end.
Definition sleeps (t : list event) : list Z := omap sleep_of t.

(** The requests and file operations of a trace: everything but the
    console lines. *)
Definition is_print (e : event) : bool :=
  match e with
  | EvPrint _ => true
  | _ => false
  end.
Definition requests (t : list event) : list event :=
  List.filter (λ e, negb (is_print e)) t.

(** How many upload attempts a trace has for part [n]. *)
Definition attempts_at (n : Z) (t : list event) : nat :=
  length (filter (λ m, m = n) (uploads t)).

(** The single-shot transfers of a trace. *)
Definition put_of (e : event) : option (string * string) :=
  match e with
  | EvPut remote_key local_path _ => Some (remote_key, local_path)
  | _ => None
  end.
Definition puts (t : list event) : list (string * string) := omap put_of t.

(** [s[0] == c] and [s[-1] == c] for a non-empty [s]. *)
Definition starts_with (c : ascii) (s : string) : bool :=
  match s with
  | String a _ => Ascii.eqb a c
  | EmptyString => false
  end.
Definition ends_with (c : ascii) (s : string) : bool :=
  starts_with c (String.rev s).

(** ** More example runs *)

Module MoreExamples.
Import Examples.

(** A complete environment, and one whose secret is empty. *)
Definition env_ok : gmap string string :=
  {[ "KS3_ACCESS_KEY" := "ak"; "KS3_SECRET_KEY" := "sk";
     "KS3_ENDPOINT" := "ks3-cn-beijing.ksyuncs.com"; "KS3_BUCKET" := "bk" ]}.
Definition env_no_secret : gmap string string :=
  {[ "KS3_ACCESS_KEY" := "ak"; "KS3_SECRET_KEY" := "";
     "KS3_ENDPOINT" := "ks3-cn-beijing.ksyuncs.com"; "KS3_BUCKET" := "bk" ]}.

(** A 1 KiB file. *)
Definition small : string := "/data/small.txt".
Definition disk_small : disk := {[ small := File 1024 None ]}.

(** A service that does not find the key when asked for a url. *)
Definition no_url : world :=
  World (λ _, Ok tt) (λ _, Ok "uid-1") (λ _, Ok []) (λ _ _ _ _, Ok None)
        (λ _, Ok tt) (λ _, Ok tt) (λ _ _, Ok tt) (λ _, Ok None) (λ _, 0).


(** A record that lists part 1 twice. *)
Definition parts_twice : list part_record :=
  [PartRecord 1 "old" 10; PartRecord 2 "e2" 20; PartRecord 1 "new" 10].

End MoreExamples.

(** * Properties *)

(** ** The runs have the shapes above *)

Section LoopShapeFacts.
Context (w : world) (mp : session) (rpath : string).
Context (file_size flen : Z) (up : dict).

Lemma attempts_shape n len st k a d :
  (∃ es hdr,
     (length es < k)%nat ∧ all_failed w mp n len a es ∧
     ks3_upload_part_from_file w mp n len (a + length es) = Ok hdr ∧
     let st' := append_part (record_of n len hdr) st in
     attempts w (seq a k) mp rpath n len st d =
       (Ok (Some st'), <[rpath := record_file w (l_resume_data st')]> d,
        failed_attempts mp n len a es
          ++ acked_attempt mp rpath n len (a + length es) hdr (l_resume_data st')))
  ∨ (∃ es,
     length es = k ∧ all_failed w mp n len a es ∧
     attempts w (seq a k) mp rpath n len st d =
       (Ok None, d, failed_attempts mp n len a es)).
Proof.
  revert a d. induction k as [|k IH]; intros a d.
  - right. exists []. split; [done|]. split; [intros j e Hj; done|done].
  - simpl seq. cbn [attempts]. unfold bind at 1, try, upload_part.
    unfold bind at 1, call.
    destruct (ks3_upload_part_from_file w mp n len a) as [hdr|e] eqn:Ea.
    + left. exists [], hdr. simpl. rewrite Nat.add_0_r.
      split; [lia|]. split; [intros j e Hj; done|]. split; [done|].
      reflexivity.
    + destruct (IH (S a) d) as [(es & hdr & Hlen & Hf & Hok & Heq)|(es & Hlen & Hf & Heq)].
      * left. exists (e :: es), hdr. simpl length.
        split; [lia|]. split.
        { intros [|j] e' Hj; simpl in Hj.
          - rewrite Nat.add_0_r. congruence.
          - replace (a + S j)%nat with (S a + j)%nat by lia. by apply Hf. }
        replace (a + S (length es))%nat with (S a + length es)%nat by lia.
        split; [done|].
        simpl. unfold bind, print, sleep, emit. simpl in Heq. rewrite Heq. reflexivity.
      * right. exists (e :: es). simpl length. split; [lia|]. split.
        { intros [|j] e' Hj; simpl in Hj.
          - rewrite Nat.add_0_r. congruence.
          - replace (a + S j)%nat with (S a + j)%nat by lia. by apply Hf. }
        simpl. unfold bind, print, sleep, emit. rewrite Heq. reflexivity.
Qed.

Lemma part_loop_shape idx st d r d' t :
  part_loop w idx mp rpath file_size flen up st d = (r, d', t) →
  loop_shape w mp rpath file_size flen up idx st d r d' t.
Proof.
  revert st d t. induction idx as [|i idx IH]; intros st d t; cbn [part_loop].
  - intros [= <- <- <-]. constructor.
  - destruct (dict_mem (i + 1) up) eqn:Hmem.
    + intros H. apply loop_skip; [done|]. by apply IH.
    + fold (data_len file_size flen i). unfold bind at 1.
      destruct (attempts_shape (i + 1) (data_len file_size flen i) st 3 0 d)
        as [(es & hdr & Hlen & Hf & Hok & Heq)|(es & Hlen & Hf & Heq)];
        rewrite Heq; clear Heq.
      * destruct (part_loop w idx mp rpath file_size flen up _ _)
          as [[r1 d1] t1] eqn:Hrest.
        intros [= <- <- <-]. rewrite <- app_assoc.
        eapply loop_ack
          with (st1 := append_part (record_of (i + 1) (data_len file_size flen i) hdr) st);
          eauto.
      * unfold bind, print, emit, call, ret. simpl.
        pose proof (loop_give_up w mp rpath file_size flen up i idx st d es Hmem Hlen Hf) as H.
        destruct (ks3_cancel_upload w mp) as [[]|e] eqn:Hc;
          intros [= <- <- <-]; exact H.
Qed.

Lemma loop_shape_keeps_record idx st d r d' t :
  loop_shape w mp rpath file_size flen up idx st d r d' t →
  is_Some (d !! rpath) → is_Some (d' !! rpath).
Proof.
  induction 1; intros Hd; auto.
  apply IHloop_shape. rewrite lookup_insert_eq. eauto.
Qed.

End LoopShapeFacts.

Section RunShapeFacts.
Context (w : world) (bucket_name : string).
Context (local_path remote_key : string) (file_size : Z).

Lemma started_record d rd d1 t1 :
  started w local_path remote_key d rd d1 t1 →
  ∃ f, d1 !! resume_path local_path = Some f ∧ f_json f = Some rd.
Proof.
  intros [uid Hd Hi|f rd' Hd Hj].
  - eexists. rewrite lookup_insert_eq. done.
  - eauto.
Qed.

Lemma load_or_create_shape d :
  (∃ f, d !! resume_path local_path = Some f ∧ f_json f = None ∧
     load_or_create w (resume_path local_path) remote_key d
       = (Raise (JSONDecodeError (resume_path local_path)), d, []))
  ∨ (∃ e, d !! resume_path local_path = None ∧
     ks3_initiate_multipart_upload w remote_key = Raise e ∧
     load_or_create w (resume_path local_path) remote_key d
       = (Raise e, d, [EvInitiate remote_key (Raise e)]))
  ∨ (∃ rd d1 t1, started w local_path remote_key d rd d1 t1 ∧
     load_or_create w (resume_path local_path) remote_key d
       = (Ok (upload_id rd, uploaded_parts_of (parts rd), rd), d1, t1)).
Proof.
  unfold load_or_create, bind, path_exists, load_resume.
  destruct (d !! resume_path local_path) as [f|] eqn:Hd.
  - rewrite bool_decide_eq_true_2 by eauto. rewrite Hd.
    destruct (f_json f) as [rd|] eqn:Hj.
    + right; right. exists rd, d, [EvPrint MsgResumeFound].
      split; [by eapply start_resume|done].
    + left. eauto.
  - rewrite bool_decide_eq_false_2 by (intros [? ?]; done).
    unfold call. destruct (ks3_initiate_multipart_upload w remote_key) as [uid|e] eqn:Hi.
    + right; right. eexists _, _, _. split; [by apply start_fresh|done].
    + right; left. eauto.
Qed.

Lemma multipart_run_shape d r d' t :
  multipart_upload_with_resume w bucket_name local_path remote_key file_size d
    = (r, d', t) →
  run_shape w bucket_name local_path remote_key file_size d r d' t.
Proof.
  unfold multipart_upload_with_resume. unfold bind at 1.
  destruct (load_or_create_shape d)
    as [(f & Hd & Hj & ->)|[(e & Hd & Hi & ->)|(rd & d1 & t1 & Hs & ->)]].
  - intros [= <- <- <-]. by eapply run_bad_record.
  - intros [= <- <- <-]. by eapply run_initiate_failed.
  - unfold bind at 1, find_session. unfold bind at 1, call.
    destruct (ks3_get_all_multipart_uploads w remote_key) as [l|e] eqn:Hl.
    2:{ intros [= <- <- <-]. by eapply run_list_failed. }
    cbn [ret]. fold (find_by_id (upload_id rd) l).
    destruct (find_by_id (upload_id rd) l) as [mp|] eqn:Hfind.
    2:{ unfold bind, print, emit, ret. simpl. intros [= <- <- <-].
        by eapply run_session_missing. }
    unfold bind at 1, open_rb, getsize.
    destruct (d1 !! local_path) as [f|] eqn:Hf.
    2:{ simpl. intros [= <- <- <-]. by eapply run_no_file. }
    unfold bind at 1, pbar_update, emit. unfold bind at 1.
    destruct (part_loop w _ mp _ file_size (f_len f) _ _ d1) as [[rL dL] tL] eqn:HL.
    apply part_loop_shape in HL.
    assert (is_Some (dL !! resume_path local_path)) as HdL.
    { eapply loop_shape_keeps_record; [exact HL|].
      destruct (started_record _ _ _ _ Hs) as (f' & -> & _). eauto. }
    assert (∀ r d' tF t,
      finish_shape w bucket_name local_path remote_key mp rL dL r d' tF →
      t = t1 ++ [EvListUploads remote_key (Ok l);
                 EvProgress (sum_list (size <$> dict_values (uploaded_parts_of (parts rd))))]
             ++ tL ++ tF →
      run_shape w bucket_name local_path remote_key file_size d r d' t) as Hrun.
    { intros r0 d0 tF t0 HF ->. eapply run_loop; eauto. }
    destruct rL as [[st'|]|e].
    + unfold bind at 1, call.
      destruct (ks3_complete_upload w mp) as [[]|e] eqn:Hc.
      * unfold bind, os_remove, print, emit, ret.
        destruct HdL as [f' Hf']. rewrite Hf'.
        intros [= <- <- <-].
        eapply Hrun; [apply finish_done; eauto|].
        simpl. by rewrite <- ?app_assoc.
      * intros [= <- <- <-].
        eapply Hrun; [by apply finish_complete_failed|].
        simpl. by rewrite <- ?app_assoc.
    + unfold ret. intros [= <- <- <-].
      eapply Hrun; [apply finish_aborted|].
      simpl. by rewrite <- ?app_assoc, ?app_nil_r.
    + intros [= <- <- <-].
      eapply Hrun; [apply finish_raised|].
      simpl. by rewrite <- ?app_assoc, ?app_nil_r.
Qed.

End RunShapeFacts.

(** ** Traces *)

Lemma acks_app t1 t2 : acks (t1 ++ t2) = acks t1 ++ acks t2.
Proof. apply omap_app. Qed.

Lemma uploads_app t1 t2 : uploads (t1 ++ t2) = uploads t1 ++ uploads t2.
Proof. apply omap_app. Qed.

Lemma progress_app t1 t2 : progress (t1 ++ t2) = progress t1 ++ progress t2.
Proof. apply omap_app. Qed.

Lemma elem_of_uploads n t :
  n ∈ uploads t ↔ ∃ mp len a r, EvUploadPart mp n len a r ∈ t.
Proof.
  unfold uploads. rewrite list_elem_of_omap. split.
  - intros (e & He & Hn). destruct e; simplify_eq/=. eauto.
  - intros (mp & len & a & r & He). eexists. split; [exact He|done].
Qed.


Lemma elem_of_failed_attempts ev mp n len a es :
  ev ∈ failed_attempts mp n len a es ↔
  ∃ (j : nat) e, es !! j = Some e ∧ ev ∈ failed_attempt mp n len (a + j) e.
Proof.
  revert a. induction es as [|x es IH]; intros a; cbn [failed_attempts].
  - split; [by intros ?%elem_of_nil|by intros (j & e & ? & _)].
  - rewrite elem_of_app, IH. split.
    + intros [H|(j & e & Hj & H)].
      * exists 0%nat, x. rewrite Nat.add_0_r. done.
      * exists (S j), e. replace (a + S j)%nat with (S a + j)%nat by lia. done.
    + intros ([|j] & e & Hj & H); simpl in Hj.
      * left. rewrite Nat.add_0_r in H. congruence.
      * right. exists j, e. replace (S a + j)%nat with (a + S j)%nat by lia. done.
Qed.

Lemma acks_failed_attempts mp n len a es : acks (failed_attempts mp n len a es) = [].
Proof. revert a. induction es as [|e es IH]; intros a; simpl; [done|apply IH]. Qed.

Lemma progress_failed_attempts mp n len a es :
  progress (failed_attempts mp n len a es) = [].
Proof. revert a. induction es as [|e es IH]; intros a; simpl; [done|apply IH]. Qed.

Lemma uploads_failed_attempts mp n len a es :
  uploads (failed_attempts mp n len a es) = replicate (length es) n.
Proof.
  revert a. induction es as [|e es IH]; intros a; simpl; [done|].
  f_equal. apply IH.
Qed.

Lemma ack_written_app rpath base t1 t2 :
  ack_written rpath base t1 →
  ack_written rpath (base ++ acks t1) t2 →
  ack_written rpath base (t1 ++ t2).
Proof.
  revert base. induction t1 as [|e t1 IH]; intros base; simpl.
  - intros _. by rewrite app_nil_r.
  - unfold acks. simpl. destruct (ack_of e) as [p|] eqn:He.
    + intros [(rd & t'' & -> & Hrd) H1] H2. split.
      * by exists rd, (t'' ++ t2).
      * apply IH; [done|]. by rewrite <- app_assoc.
    + apply IH.
Qed.

Lemma ack_written_failed_attempts rpath base mp n len a es :
  ack_written rpath base (failed_attempts mp n len a es).
Proof. revert a. induction es as [|e es IH]; intros a; simpl; [done|apply IH]. Qed.

(** The checker, read at one acknowledged upload of the trace. *)
Lemma ack_written_split rpath base t pre e post p :
  ack_written rpath base t →
  t = pre ++ e :: post →
  ack_of e = Some p →
  ∃ rd post', post = EvWrite rpath rd :: post' ∧
              parts rd = base ++ acks pre ++ [p].
Proof.
  intros Hw -> He. revert base Hw.
  induction pre as [|x pre IH]; intros base; simpl.
  - rewrite He. intros [(rd & t'' & -> & Hrd) _]. eauto.
  - unfold acks. simpl. destruct (ack_of x) as [q|].
    + intros [_ Hw]. destruct (IH _ Hw) as (rd & post' & -> & Hrd).
      exists rd, post'. split; [done|]. by rewrite Hrd, <- app_assoc.
    + apply IH.
Qed.

(** ** The part loop *)

Section LoopFacts.
Context (w : world) (mp : session) (rpath : string).
Context (file_size flen : Z) (up : dict).

Local Abbreviation shape := (loop_shape w mp rpath file_size flen up).
Local Abbreviation levent := (loop_event w mp rpath file_size flen up).

Lemma loop_event_mono idx idx' e :
  (∀ i, i ∈ idx → i ∈ idx') → levent idx e → levent idx' e.
Proof.
  intros Hsub. destruct e as [m| | | | | | | | | | | |]; simpl; try done.
  intros (? & ? & ? & ? & ? & ?). auto 10.
Qed.

Lemma failed_attempts_events i idx es :
  dict_mem (i + 1) up = false →
  (length es ≤ 3)%nat →
  all_failed w mp (i + 1) (data_len file_size flen i) 0 es →
  Forall (levent (i :: idx))
    (failed_attempts mp (i + 1) (data_len file_size flen i) 0 es).
Proof.
  intros Hmem Hlen Hf. apply Forall_forall. intros ev Hev.
  apply elem_of_failed_attempts in Hev as (j & e & Hj & Hev).
  pose proof (lookup_lt_Some _ _ _ Hj) as Hlt.
  unfold failed_attempt in Hev.
  rewrite !elem_of_cons, elem_of_nil in Hev.
  destruct Hev as [->|[->|[->|[]]]]; simpl; try done.
  replace (i + 1 - 1) with i by lia.
  split_and!; [done|set_solver|done|done|lia|]. symmetry. by apply Hf.
Qed.

Lemma loop_events idx st d r d' t :
  shape idx st d r d' t → Forall (levent idx) t.
Proof.
  induction 1 as [st d|i idx st d r d' t Hmem _ IH
                 |i idx st d r d' t es hdr st1 Hmem Hlen Hf Hok -> _ IH
                 |i idx st d es Hmem Hlen Hf].
  - constructor.
  - eapply Forall_impl; [exact IH|]. intros e. apply loop_event_mono. set_solver.
  - rewrite !Forall_app. split; [apply failed_attempts_events; [done|lia|done]|].
    split.
    + constructor; [|constructor; [done|constructor; [done|constructor]]].
      simpl. replace (i + 1 - 1) with i by lia.
      split_and!; [done|set_solver|done|done|done|done].
    + eapply Forall_impl; [exact IH|]. intros e. apply loop_event_mono. set_solver.
  - rewrite Forall_app. split; [apply failed_attempts_events; [done|lia|done]|].
    repeat constructor; simpl; done.
Qed.

(** The records the loop adds are those of the acknowledged parts. *)
Lemma loop_state idx st d r d' t :
  shape idx st d r d' t →
  (∀ st', r = Ok (Some st') →
     l_parts st' = l_parts st ++ acks t ∧
     l_resume_data st' = with_parts (l_resume_data st) (acks t)) ∧
  (∀ p, p ≠ rpath → d' !! p = d !! p) ∧
  (∀ f, d !! rpath = Some f → f_json f = Some (l_resume_data st) →
     ∃ f', d' !! rpath = Some f' ∧
           f_json f' = Some (with_parts (l_resume_data st) (acks t))).
Proof.
  induction 1 as [st d|i idx st d r d' t Hmem _ IH
                 |i idx st d r d' t es hdr st1 Hmem Hlen Hf Hok -> _ IH
                 |i idx st d es Hmem Hlen Hf].
  - split; [|split].
    + intros st' [= <-]. simpl. rewrite app_nil_r. unfold with_parts.
      rewrite app_nil_r. by destruct st as [ps []].
    + done.
    + intros f Hd Hj. exists f. split; [done|]. unfold with_parts.
      rewrite app_nil_r. simpl. by destruct (l_resume_data st).
  - done.
  - destruct IH as (IH1 & IH2 & IH3).
    rewrite !acks_app, acks_failed_attempts. simpl.
    split; [|split].
    + intros st' Hr. destruct (IH1 st' Hr) as [-> ->]. simpl.
      unfold with_parts. simpl. by rewrite <- !app_assoc.
    + intros p Hp. rewrite IH2 by done. by rewrite lookup_insert_ne.
    + intros f Hd Hj.
      destruct (IH3 (record_file w (l_resume_data (append_part
                  (record_of (i + 1) (data_len file_size flen i) hdr) st))))
        as (f' & Hf' & Hj'); [by rewrite lookup_insert_eq|done|].
      exists f'. split; [done|]. rewrite Hj'. unfold with_parts. simpl.
      by rewrite <- !app_assoc.
  - rewrite acks_app, acks_failed_attempts. simpl.
    split; [|split].
    + intros st'. destruct (ks3_cancel_upload w mp); done.
    + done.
    + intros f Hd Hj. exists f. split; [done|]. unfold with_parts.
      rewrite app_nil_r. by destruct (l_resume_data st).
Qed.

(** Only parts that are not recorded are acknowledged, in the order of
    [idx]; all of them when the loop runs to its end. *)
Lemma loop_acks idx st d r d' t :
  shape idx st d r d' t →
  let pending := filter (λ n, dict_mem n up = false) ((λ i, i + 1) <$> idx) in
  part_num <$> acks t `prefix_of` pending ∧
  (∀ st', r = Ok (Some st') → part_num <$> acks t = pending).
Proof.
  induction 1 as [st d|i idx st d r d' t Hmem _ IH
                 |i idx st d r d' t es hdr st1 Hmem Hlen Hf Hok -> _ IH
                 |i idx st d es Hmem Hlen Hf]; cbn zeta in *.
  - done.
  - rewrite fmap_cons, filter_cons_False by congruence. done.
  - rewrite fmap_cons, filter_cons_True by done.
    rewrite !acks_app, acks_failed_attempts. simpl.
    destruct IH as [IH1 IH2]. split; [by apply prefix_cons|].
    intros st' Hr. f_equal. eauto.
  - rewrite acks_app, acks_failed_attempts. simpl. split; [apply prefix_nil|].
    intros st'. destruct (ks3_cancel_upload w mp); done.
Qed.

Lemma loop_upload_in idx st d r d' t n :
  shape idx st d r d' t → n ∈ uploads t → n - 1 ∈ idx ∧ dict_mem n up = false.
Proof.
  intros Hs (mp' & len & a & rr & He)%elem_of_uploads.
  apply loop_events in Hs. rewrite Forall_forall in Hs.
  apply Hs in He. simpl in He. tauto.
Qed.

Lemma StronglySorted_replicate_le (k : nat) (x : Z) :
  StronglySorted Z.le (replicate k x).
Proof.
  induction k as [|k IH]; simpl; constructor; [done|].
  apply Forall_forall. intros y ->%elem_of_replicate_inv. lia.
Qed.

(** Upload attempts follow the order of [idx]. *)
Lemma loop_uploads_sorted idx st d r d' t :
  shape idx st d r d' t →
  StronglySorted Z.lt idx →
  StronglySorted Z.le (uploads t).
Proof.
  induction 1 as [st d|i idx st d r d' t Hmem _ IH
                 |i idx st d r d' t es hdr st1 Hmem Hlen Hf Hok -> Hrest IH
                 |i idx st d es Hmem Hlen Hf]; intros Hidx.
  - constructor.
  - apply IH. by inversion Hidx.
  - inversion Hidx as [|? ? Hidx' Hlt]; subst. rewrite Forall_forall in Hlt.
    rewrite app_assoc, uploads_app. apply StronglySorted_app_2; [| |by apply IH].
    + intros x1 x2 Hx1 Hx2.
      eapply loop_upload_in in Hx2 as [Hx2 _]; [|exact Hrest].
      apply Hlt in Hx2.
      rewrite uploads_app, uploads_failed_attempts in Hx1. simpl in Hx1.
      apply elem_of_app in Hx1 as [->%elem_of_replicate_inv| ->%list_elem_of_singleton]; lia.
    + rewrite uploads_app, uploads_failed_attempts. simpl.
      change ([i + 1]) with (replicate 1 (i + 1)).
      rewrite <- replicate_add. apply StronglySorted_replicate_le.
  - rewrite uploads_app, uploads_failed_attempts. simpl. rewrite app_nil_r.
    apply StronglySorted_replicate_le.
Qed.

(** Progress inside the loop is reported once per acknowledged part. *)
Lemma loop_progress idx st d r d' t :
  shape idx st d r d' t → progress t = size <$> acks t.
Proof.
  induction 1 as [st d|i idx st d r d' t Hmem _ IH
                 |i idx st d r d' t es hdr st1 Hmem Hlen Hf Hok -> Hrest IH
                 |i idx st d es Hmem Hlen Hf].
  - done.
  - done.
  - rewrite !progress_app, !acks_app, progress_failed_attempts, acks_failed_attempts.
    simpl. by rewrite IH.
  - by rewrite progress_app, acks_app, progress_failed_attempts, acks_failed_attempts.
Qed.

Lemma loop_ack_written idx st d r d' t :
  shape idx st d r d' t →
  ack_written rpath (parts (l_resume_data st)) t.
Proof.
  induction 1 as [st d|i idx st d r d' t Hmem _ IH
                 |i idx st d r d' t es hdr st1 Hmem Hlen Hf Hok -> Hrest IH
                 |i idx st d es Hmem Hlen Hf].
  - done.
  - done.
  - apply ack_written_app; [apply ack_written_failed_attempts|].
    rewrite acks_failed_attempts, app_nil_r. simpl. split; [|exact IH].
    eexists _, _. split; [done|]. done.
  - apply ack_written_app; [apply ack_written_failed_attempts|]. done.
Qed.


End LoopFacts.

(** ** [uploaded_parts] *)

Lemma dict_mem_set k k' v d :
  dict_mem k (dict_set k' v d) = bool_decide (k = k') || dict_mem k d.
Proof.
  induction d as [|[k0 v0] d IH]; simpl.
  - destruct (Z.eqb_spec k' k), (bool_decide_reflect (k = k')); simpl; congruence.
  - destruct (Z.eqb_spec k0 k'); simpl.
    + subst. destruct (Z.eqb_spec k' k), (bool_decide_reflect (k = k'));
        simpl; congruence.
    + rewrite IH.
      destruct (Z.eqb_spec k0 k), (bool_decide_reflect (k = k')), (dict_mem k d);
        simpl; congruence.
Qed.

Lemma dict_mem_foldl k ps acc :
  dict_mem k (foldl (λ d p, dict_set (part_num p) p d) acc ps) = true ↔
  dict_mem k acc = true ∨ k ∈ part_num <$> ps.
Proof.
  revert acc. induction ps as [|p ps IH]; intros acc; simpl.
  - rewrite elem_of_nil. tauto.
  - rewrite IH, dict_mem_set, orb_true_iff, bool_decide_eq_true, elem_of_cons. tauto.
Qed.

Lemma dict_mem_uploaded_parts k ps :
  dict_mem k (uploaded_parts_of ps) = false ↔ k ∉ part_num <$> ps.
Proof.
  unfold uploaded_parts_of. rewrite <- not_true_iff_false, dict_mem_foldl.
  simpl. intuition congruence.
Qed.




(** ** Counting the records of a part *)




(** ** The chunk plan *)

Lemma part_size_pos : 0 < part_size.
Proof. reflexivity. Qed.

Lemma part_count_bounds file_size :
  (part_count file_size - 1) * part_size < file_size ≤ part_count file_size * part_size.
Proof.
  unfold part_count.
  pose proof (Z.div_mod (file_size + part_size - 1) part_size) as H.
  pose proof (Z.mod_pos_bound (file_size + part_size - 1) part_size part_size_pos) as B.
  pose proof part_size_pos.
  specialize (H ltac:(lia)).
  nia.
Qed.



Lemma elem_of_range n i : i ∈ range n ↔ 0 ≤ i < n.
Proof.
  unfold range. rewrite list_elem_of_fmap. split.
  - intros (k & -> & Hk). apply elem_of_seq in Hk. lia.
  - intros H. exists (Z.to_nat i). split; [lia|]. apply elem_of_seq. lia.
Qed.

Lemma seq_sorted a k : StronglySorted lt (seq a k).
Proof.
  revert a. induction k as [|k IH]; intros a; simpl; constructor; [apply IH|].
  apply Forall_forall. intros x Hx%elem_of_seq. lia.
Qed.

Lemma range_sorted n : StronglySorted Z.lt (range n).
Proof.
  unfold range. eapply StronglySorted_fmap; [|apply seq_sorted].
  intros x y. lia.
Qed.

Lemma range_NoDup n : NoDup (range n).
Proof.
  unfold range. apply NoDup_fmap_2; [|apply NoDup_seq].
  intros x y. lia.
Qed.


Lemma part_len_in_file file_size i :
  0 ≤ i < part_count file_size → 0 < part_len file_size i ≤ file_size - part_offset i.
Proof.
  intros Hi. pose proof (part_count_bounds file_size).
  unfold part_len, part_offset, part_size in *. lia.
Qed.


(** ** [basename] *)

Lemma rfind_none c s : has_char c s = false → rfind c s = -1.
Proof.
  induction s as [|a s IH]; simpl; [done|].
  intros [Ha Hs]%orb_false_iff. rewrite IH, Ha by done. done.
Qed.

Lemma rfind_bounds c s : -1 ≤ rfind c s < Z.of_nat (String.length s).
Proof.
  induction s as [|a s IH]; simpl String.length; cbn [rfind]; [lia|].
  destruct (Z.leb_spec 0 (rfind c s)); [lia|]. destruct (Ascii.eqb a c); lia.
Qed.

Lemma append_nil (s : string) : "" +:+ s = s.
Proof. reflexivity. Qed.

Lemma append_cons a (s1 s2 : string) : String a s1 +:+ s2 = String a (s1 +:+ s2).
Proof. reflexivity. Qed.

Lemma length_append (s1 s2 : string) :
  String.length (s1 +:+ s2) = (String.length s1 + String.length s2)%nat.
Proof.
  induction s1 as [|a s1 IH]; [done|]. rewrite append_cons. simpl. by rewrite IH.
Qed.

Lemma drop_string_app s1 s2 :
  drop_string (String.length s1) (s1 +:+ s2) = s2.
Proof.
  induction s1 as [|a s1 IH]; [by destruct s2|].
  rewrite append_cons. exact IH.
Qed.

Lemma rfind_app_slash dir name :
  has_char slash name = false →
  rfind slash (dir +:+ String slash name) = Z.of_nat (String.length dir).
Proof.
  intros Hn. induction dir as [|a dir IH].
  - rewrite append_nil. cbn [rfind]. rewrite rfind_none by done. reflexivity.
  - rewrite append_cons. cbn [rfind String.length]. rewrite IH. destruct (Z.leb_spec 0 (Z.of_nat (String.length dir))); lia.
Qed.

Lemma string_app_assoc (s1 s2 s3 : string) : (s1 +:+ s2) +:+ s3 = s1 +:+ (s2 +:+ s3).
Proof.
  induction s1 as [|a s1 IH]; [done|]. rewrite !append_cons. by rewrite IH.
Qed.

Lemma basename_join dir name :
  has_char slash name = false →
  basename (dir +:+ "/" +:+ name) = name.
Proof.
  intros Hn. unfold basename. change ("/" +:+ name) with (String slash name).
  rewrite rfind_app_slash by done.
  replace (Z.to_nat (Z.of_nat (String.length dir) + 1))
    with (String.length (dir +:+ "/")).
  - change (String slash name) with ("/" +:+ name).
    rewrite <- string_app_assoc. apply drop_string_app.
  - rewrite length_append. simpl. lia.
Qed.

Lemma basename_plain name : has_char slash name = false → basename name = name.
Proof. intros Hn. unfold basename. by rewrite rfind_none. Qed.

Lemma has_char_app c s1 s2 :
  has_char c (s1 +:+ s2) = has_char c s1 || has_char c s2.
Proof.
  induction s1 as [|a s1 IH]; [done|].
  rewrite append_cons. simpl. by rewrite IH, orb_assoc.
Qed.

Lemma has_char_drop c n s : has_char c s = false → has_char c (drop_string n s) = false.
Proof.
  revert s. induction n as [|n IH]; intros s; [done|].
  destruct s as [|a s]; simpl; [done|].
  intros [_ Hs]%orb_false_iff. by apply IH.
Qed.

(** Nothing is left of the path before its last slash. *)
Lemma basename_no_slash p : has_char slash (basename p) = false.
Proof.
  unfold basename. induction p as [|a p IH]; [done|].
  cbn [rfind]. pose proof (rfind_bounds slash p) as Hb.
  destruct (Z.leb_spec 0 (rfind slash p)) as [H|H].
  - replace (Z.to_nat (rfind slash p + 1 + 1)) with (S (Z.to_nat (rfind slash p + 1))) by lia.
    simpl. exact IH.
  - assert (rfind slash p = -1) as Hr by lia. rewrite Hr in IH. simpl in IH.
    destruct (Ascii.eqb a slash) eqn:Ha; simpl.
    + exact IH.
    + by rewrite Ha, IH.
Qed.

(** ** Whole runs *)

Lemma resume_path_no_slash lp : has_char slash (resume_path lp) = false.
Proof.
  unfold resume_path. rewrite !has_char_app, basename_no_slash. reflexivity.
Qed.

(** The record never sits at the path of the file being uploaded. *)
Lemma resume_path_neq lp : resume_path lp ≠ lp.
Proof.
  intros Heq. pose proof (resume_path_no_slash lp) as Hns. rewrite Heq in Hns.
  apply (f_equal String.length) in Heq. unfold resume_path in Heq.
  rewrite (basename_plain lp Hns), !length_append in Heq. simpl in Heq. lia.
Qed.

Section RunFacts.
Context (w : world) (bucket_name : string).
Context (local_path remote_key : string) (file_size : Z).

Local Abbreviation rpath := (resume_path local_path).
Local Abbreviation rshape := (run_shape w bucket_name local_path remote_key file_size).

Lemma run_of_shape d :
  let run := multipart_upload_with_resume w bucket_name local_path remote_key
               file_size d in
  rshape d (outcome run) (final_disk run) (trace run).
Proof.
  intros run. apply multipart_run_shape. subst run.
  by destruct (multipart_upload_with_resume _ _ _ _ _ _) as [[? ?] ?].
Qed.

Lemma started_facts d rd d1 t1 :
  started w local_path remote_key d rd d1 t1 →
  parts rd = recorded_parts d rpath ∧
  (∀ p, p ≠ rpath → d1 !! p = d !! p) ∧
  (∃ f, d1 !! rpath = Some f ∧ f_json f = Some rd) ∧
  Forall start_event t1 ∧
  acks t1 = [] ∧ uploads t1 = [] ∧ progress t1 = [].
Proof.
  intros [uid Hd Hi|f rd' Hd Hj]; unfold recorded_parts; rewrite Hd.
  - split_and!; try done.
    + intros p Hp. by rewrite lookup_insert_ne.
    + eexists. by rewrite lookup_insert_eq.
    + by repeat constructor.
  - rewrite Hj. split_and!; try done; eauto. by repeat constructor.
Qed.

Lemma finish_facts mp rL dL r d' tF :
  finish_shape w bucket_name local_path remote_key mp rL dL r d' tF →
  (∀ p, p ≠ rpath → d' !! p = dL !! p) ∧
  Forall outer_event tF ∧
  acks tF = [] ∧ uploads tF = [] ∧ progress tF = [].
Proof.
  intros [e dL0|dL0|st dL0 e Hc|st dL0 Hc Hd]; split_and!; try done;
    try by repeat constructor.
  intros p Hp. by rewrite lookup_delete_ne.
Qed.

Lemma start_event_outer e : start_event e → outer_event e.
Proof. destruct e as [[]| | | | | | | | | | | |]; simpl; done. Qed.

(** A run that stops before the loop shows start events only; otherwise it
    is made of a start, the loop and a finish. *)
Lemma run_shape_inv d r d' t :
  rshape d r d' t →
  (Forall start_event t ∧ (∀ a, r ≠ Ok (Some a)) ∧
   (∀ p, p ≠ rpath → d' !! p = d !! p))
  ∨ (∃ rd d1 t1 l mp f rL dL tL tF,
       started w local_path remote_key d rd d1 t1 ∧
       ks3_get_all_multipart_uploads w remote_key = Ok l ∧
       find_by_id (upload_id rd) l = Some mp ∧
       d1 !! local_path = Some f ∧
       loop_shape w mp rpath file_size (f_len f) (uploaded_parts_of (parts rd))
         (range (part_count file_size))
         (Locals (dict_values (uploaded_parts_of (parts rd))) rd) d1 rL dL tL ∧
       finish_shape w bucket_name local_path remote_key mp rL dL r d' tF ∧
       t = t1 ++ [EvListUploads remote_key (Ok l);
                  EvProgress (sum_list (size <$> dict_values
                                (uploaded_parts_of (parts rd))))]
              ++ tL ++ tF).
Proof.
  intros [f Hd Hj|e Hd Hi|rd d1 t1 e Hs Hl|rd d1 t1 l Hs Hl Hfind
         |rd d1 t1 l mp Hs Hl Hfind Hlp
         |rd d1 t1 l mp f rL dL tL r0 d0 tF Hs Hl Hfind Hlp HL HF].
  - left. split_and!; [constructor|done|done].
  - left. split_and!; [by repeat constructor|done|done].
  - left. destruct (started_facts _ _ _ _ Hs) as (_ & Hd1 & _ & Ht1 & _).
    split_and!; [|done|done]. apply Forall_app. split; [done|by repeat constructor].
  - left. destruct (started_facts _ _ _ _ Hs) as (_ & Hd1 & _ & Ht1 & _).
    split_and!; [|done|done]. apply Forall_app. split; [done|by repeat constructor].
  - left. destruct (started_facts _ _ _ _ Hs) as (_ & Hd1 & _ & Ht1 & _).
    split_and!; [|done|done]. apply Forall_app. split; [done|by repeat constructor].
  - right. by exists rd, d1, t1, l, mp, f, rL, dL, tL, tF.
Qed.

(** Where an event of a full run can sit. *)
Lemma elem_of_run (ev : event) t1 a b tL tF :
  ev ∈ t1 ++ [a; b] ++ tL ++ tF ↔
  ev ∈ t1 ∨ ev = a ∨ ev = b ∨ ev ∈ tL ∨ ev ∈ tF.
Proof. rewrite !elem_of_app, !elem_of_cons, elem_of_nil. tauto. Qed.

(** The events of the part loop are found in the loop. *)
Lemma run_loop_event ev d rd d1 t1 a b mp rL dL r d' tL tF :
  started w local_path remote_key d rd d1 t1 →
  finish_shape w bucket_name local_path remote_key mp rL dL r d' tF →
  ¬ outer_event ev →
  ev ∈ t1 ++ [EvListUploads a b; EvProgress (sum_list (size <$> dict_values
                                (uploaded_parts_of (parts rd))))] ++ tL ++ tF →
  ev ∈ tL.
Proof.
  intros Hs HF Hev Hin.
  destruct (started_facts _ _ _ _ Hs) as (_ & _ & _ & Ht1 & _).
  destruct (finish_facts _ _ _ _ _ _ HF) as (_ & HtF & _).
  rewrite Forall_forall in Ht1, HtF.
  apply elem_of_run in Hin as [Hin|[->|[->|[Hin|Hin]]]]; try done.
  - exfalso. apply Hev, start_event_outer. auto.
  - exfalso. auto.
Qed.

Lemma run_observed d rd d1 t1 a b mp rL dL r d' tL tF :
  started w local_path remote_key d rd d1 t1 →
  finish_shape w bucket_name local_path remote_key mp rL dL r d' tF →
  let t := t1 ++ [EvListUploads a b; EvProgress (sum_list (size <$> dict_values
                                (uploaded_parts_of (parts rd))))] ++ tL ++ tF in
  acks t = acks tL ∧ uploads t = uploads tL ∧
  progress t = sum_list (size <$> dict_values (uploaded_parts_of (parts rd)))
                 :: progress tL.
Proof.
  intros Hs HF.
  destruct (started_facts _ _ _ _ Hs) as (_ & _ & _ & _ & Ha1 & Hu1 & Hp1).
  destruct (finish_facts _ _ _ _ _ _ HF) as (_ & _ & HaF & HuF & HpF).
  cbn zeta.
  rewrite !acks_app, !uploads_app, !progress_app, Ha1, Hu1, Hp1, HaF, HuF, HpF.
  simpl. by rewrite !app_nil_r.
Qed.
End RunFacts.

(** * Properties of the specification *)





Lemma start_only_observed t :
  Forall start_event t → uploads t = [] ∧ acks t = [] ∧ progress t = [].
Proof.
  induction 1 as [|e t He _ IH]; [done|].
  destruct e as [[]| | | | | | | | | | | |]; simpl in He; try done;
    unfold uploads, acks, progress in *; simpl; done.
Qed.

Lemma StronglySorted_filter {A} (R : relation A) (P : A → Prop)
    `{∀ x, Decision (P x)} (l : list A) :
  StronglySorted R l → StronglySorted R (filter P l).
Proof.
  induction 1 as [|x l Hl IH Hx]; [constructor|].
  rewrite filter_cons. destruct (decide (P x)); [|done].
  constructor; [done|]. rewrite Forall_forall in Hx |- *.
  intros y [_ Hy]%list_elem_of_filter. auto.
Qed.

Lemma todo_sorted recorded file_size : StronglySorted Z.lt (todo recorded file_size).
Proof.
  unfold todo. apply StronglySorted_filter.
  eapply StronglySorted_fmap; [|apply range_sorted]. intros x y. lia.
Qed.

(** The parts the loop takes up are the parts left to upload. *)
Lemma pending_todo ps file_size :
  filter (λ n, dict_mem n (uploaded_parts_of ps) = false)
    ((λ i, i + 1) <$> range (part_count file_size))
  = todo (part_num <$> ps) file_size.
Proof.
  unfold todo. apply list_filter_iff. intros n. apply dict_mem_uploaded_parts.
Qed.

Lemma finish_completed w bucket_name local_path remote_key mp rL dL r d' tF a :
  finish_shape w bucket_name local_path remote_key mp rL dL r d' tF →
  r = Ok (Some a) →
  ∃ st, rL = Ok (Some st) ∧ ks3_complete_upload w mp = Ok tt ∧
        a = object_address bucket_name remote_key ∧
        d' = delete (resume_path local_path) dL ∧
        tF = [EvComplete mp (Ok tt); EvRemove (resume_path local_path);
              EvPrint MsgMultipartOk].
Proof. intros [e dL0|dL0|st dL0 e Hc|st dL0 Hc Hd] [=]; subst. eauto 10. Qed.

(** C2. Whatever resume state is loaded, the parts are taken up in
    ascending order of their number, an upload is attempted only for parts
    that are not in the loaded record, and when the function completes the
    parts acknowledged in the run are exactly the parts of [1..part_count]
    missing from the record; the bytes of the recorded parts are reported
    as progress once, before the loop.  With parts 1 and 2 recorded out of
    four, only parts 3 and 4 are transmitted. *)
Theorem recorded_parts_are_skipped w bucket_name local_path remote_key
    file_size d :
  let run := multipart_upload_with_resume w bucket_name local_path remote_key
               file_size d in
  let recorded := recorded_parts d (resume_path local_path) in
  let pending := todo (part_num <$> recorded) file_size in
  StronglySorted Z.lt pending ∧
  StronglySorted Z.le (uploads (trace run)) ∧
  (∀ n, n ∈ uploads (trace run) → n ∈ pending) ∧
  (∀ n, n ∈ part_num <$> recorded → n ∉ uploads (trace run)) ∧
  part_num <$> acks (trace run) `prefix_of` pending ∧
  (∀ a, outcome run = Ok (Some a) → part_num <$> acks (trace run) = pending) ∧
  (progress (trace run) = [] ∨
   progress (trace run)
     = sum_list (size <$> dict_values (uploaded_parts_of recorded))
         :: (size <$> acks (trace run))) ∧
  (part_count file_size = 4 →
   (∀ n, n ∈ part_num <$> recorded ↔ n = 1 ∨ n = 2) →
   pending = [3; 4] ∧ ∀ n, n ∈ uploads (trace run) → n = 3 ∨ n = 4).
Proof.
  intros run recorded pending.
  assert (StronglySorted Z.le (uploads (trace run)) ∧
          (∀ n, n ∈ uploads (trace run) → n ∈ pending) ∧
          part_num <$> acks (trace run) `prefix_of` pending ∧
          (∀ a, outcome run = Ok (Some a) →
             part_num <$> acks (trace run) = pending) ∧
          (progress (trace run) = [] ∨
           progress (trace run)
             = sum_list (size <$> dict_values (uploaded_parts_of recorded))
                 :: (size <$> acks (trace run)))) as (Hsorted & Hin & Hpre & Hall & Hprog).
  { pose proof (run_of_shape w bucket_name local_path remote_key file_size d) as Hs.
    cbn zeta in Hs. fold run in Hs.
    apply run_shape_inv in Hs as [(Hst & Hr & _)|Hs].
    - apply start_only_observed in Hst as (-> & -> & ->).
      split_and!; [constructor|by intros n ?%elem_of_nil|apply prefix_nil| |by left].
      intros a Ha. by destruct (Hr a).
    - destruct Hs as (rd & d1 & t1 & l & mp & f & rL & dL & tL & tF
                      & Hs & Hl & Hfind & Hlp & HL & HF & Ht).
      edestruct run_observed as (Ha & Hu & Hp); [exact Hs|exact HF|].
      cbn zeta in Ha, Hu, Hp. rewrite <- Ht in Ha, Hu, Hp.
      edestruct started_facts as (Hrd & _); [exact Hs|].
      fold recorded in Hrd. rewrite Hrd in *.
      rewrite Ha, Hu, Hp.
      pose proof (loop_acks _ _ _ _ _ _ _ _ _ _ _ _ HL) as [Hpre Hall].
      cbn zeta in Hpre, Hall. rewrite pending_todo in Hpre, Hall.
      split_and!.
      + eapply loop_uploads_sorted; [exact HL|apply range_sorted].
      + intros n Hn. eapply loop_upload_in in Hn as [Hn Hmem]; [|exact HL].
        apply list_elem_of_filter. split.
        * by apply dict_mem_uploaded_parts.
        * apply list_elem_of_fmap. exists (n - 1). split; [lia|done].
      + done.
      + intros a Ha'.
        edestruct finish_completed as (st & HrL & _); [exact HF|exact Ha'|].
        eauto.
      + right. f_equal. eapply loop_progress. exact HL. }
  split_and!; try done.
  - apply todo_sorted.
  - intros n Hn Hup. apply Hin in Hup.
    apply list_elem_of_filter in Hup as [Hup _]. done.
  - intros Hpc H12.
    assert (pending = [3; 4]) as Hpending.
    { unfold pending, todo. rewrite Hpc.
      change ((λ i, i + 1) <$> range 4) with [1; 2; 3; 4].
      rewrite filter_cons_False by (rewrite H12; tauto).
      rewrite filter_cons_False by (rewrite H12; tauto).
      rewrite filter_cons_True by (rewrite H12; lia).
      rewrite filter_cons_True by (rewrite H12; lia).
      done. }
    split; [done|]. intros n Hn%Hin. rewrite Hpending in Hn.
    rewrite !elem_of_cons, elem_of_nil in Hn. tauto.
Qed.

Lemma run_ack_written w bucket_name local_path remote_key file_size d r d' t :
  run_shape w bucket_name local_path remote_key file_size d r d' t →
  ack_written (resume_path local_path)
    (recorded_parts d (resume_path local_path)) t.
Proof.
  intros [(Hst & _)|Hs]%run_shape_inv.
  - generalize (recorded_parts d (resume_path local_path)).
    induction Hst as [|e t He _ IH]; intros base; [done|].
    destruct e as [[]| | | | | | | | | | | |]; simpl in He; try done; apply IH.
  - destruct Hs as (rd & d1 & t1 & l & mp & f & rL & dL & tL & tF
                    & Hs & Hl & Hfind & Hlp & HL & HF & ->).
    edestruct started_facts as (Hrd & _ & _ & _ & Ha1 & _); [exact Hs|].
    rewrite <- Hrd.
    apply ack_written_app.
    { destruct Hs; simpl; done. }
    rewrite Ha1, app_nil_r. simpl.
    apply ack_written_app.
    { apply loop_ack_written in HL. exact HL. }
    destruct HF; simpl; done.
Qed.

(** C3. Whenever the service acknowledges a part, the very next thing the
    run does is to write the resume record to [resume_path], and the record
    written holds the parts found at start, the parts acknowledged earlier
    in the run and, last, the part just acknowledged: [{part_num, etag,
    size}].  No upload of a later part can start in between. *)
Theorem ack_is_persisted_before_next_upload w bucket_name local_path
    remote_key file_size d pre post mp n len a hdr :
  trace (multipart_upload_with_resume w bucket_name local_path remote_key
           file_size d)
    = pre ++ EvUploadPart mp n len a (Ok hdr) :: post →
  ∃ rd post',
    post = EvWrite (resume_path local_path) rd :: post' ∧
    parts rd = recorded_parts d (resume_path local_path) ++ acks pre
                 ++ [PartRecord n (strip dquote (default "" hdr)) len] ∧
    (∀ d0, write_resume w (resume_path local_path) rd d0
             = (Ok tt, <[resume_path local_path := File (json_len w rd) (Some rd)]> d0,
                [EvWrite (resume_path local_path) rd])).
Proof.
  intros Ht.
  cut (∃ rd post',
         post = EvWrite (resume_path local_path) rd :: post' ∧
         parts rd = recorded_parts d (resume_path local_path) ++ acks pre
                      ++ [PartRecord n (strip dquote (default "" hdr)) len]).
  { intros (rd & post' & H1 & H2). by exists rd, post'. }
  pose proof (run_of_shape w bucket_name local_path remote_key file_size d) as Hs.
  cbn zeta in Hs. apply run_ack_written in Hs.
  eapply ack_written_split in Hs; [|exact Ht|done]. exact Hs.
Qed.

(** Without a record on the disk a run starts a new session. *)
Lemma run_fresh w bucket_name local_path remote_key file_size d r d' t :
  run_shape w bucket_name local_path remote_key file_size d r d' t →
  d !! resume_path local_path = None →
  (∃ t', t = EvInitiate remote_key (ks3_initiate_multipart_upload w remote_key) :: t') ∧
  EvPrint MsgResumeFound ∉ t.
Proof.
  intros Hrun Hd.
  assert (∀ rd d1 t1, started w local_path remote_key d rd d1 t1 →
            ∃ uid, ks3_initiate_multipart_upload w remote_key = Ok uid ∧
              t1 = [EvInitiate remote_key (Ok uid);
                    EvWrite (resume_path local_path) (ResumeData uid [])])
    as Hfresh.
  { intros rd d1 t1 [uid _ Hi|f rd' Hd' _]; [eauto|congruence]. }
  destruct Hrun as [f Hd' Hj|e _ Hi|rd d1 t1 e Hs Hl|rd d1 t1 l Hs Hl Hfind
         |rd d1 t1 l mp Hs Hl Hfind Hlp
         |rd d1 t1 l mp f rL dL tL r0 d0 tF Hs Hl Hfind Hlp HL HF];
    [congruence| |destruct (Hfresh _ _ _ Hs) as (uid & Hi & ->)..];
    rewrite Hi; (split; [simpl; eauto|]).
  - rewrite list_elem_of_singleton. done.
  - simpl. rewrite !elem_of_cons, elem_of_nil. intros [|[|[|[]]]]; done.
  - simpl. rewrite !elem_of_cons, elem_of_nil. intros [|[|[|[|[]]]]]; done.
  - simpl. rewrite !elem_of_cons, elem_of_nil. intros [|[|[|[]]]]; done.
  - simpl. rewrite !elem_of_cons, elem_of_app.
    intros [|[|[|[|[Hin|Hin]]]]]; try done.
    + apply loop_events in HL. rewrite Forall_forall in HL. by apply HL in Hin.
    + destruct HF; rewrite ?elem_of_cons, elem_of_nil in Hin;
        repeat (destruct Hin as [Hin|Hin]; try done); tauto.
Qed.

Lemma run_completed w bucket_name local_path remote_key file_size d r d' t mp :
  run_shape w bucket_name local_path remote_key file_size d r d' t →
  EvComplete mp (Ok tt) ∈ t →
  r = Ok (Some (object_address bucket_name remote_key)) ∧
  (∀ n, 1 ≤ n ≤ part_count file_size →
     n ∈ part_num <$> (recorded_parts d (resume_path local_path) ++ acks t)) ∧
  EvRemove (resume_path local_path) ∈ t ∧
  d' !! resume_path local_path = None.
Proof.
  intros [(Hst & _)|Hs]%run_shape_inv Hin.
  { rewrite Forall_forall in Hst. by apply Hst in Hin. }
  destruct Hs as (rd & d1 & t1 & l & mp0 & f & rL & dL & tL & tF
                  & Hs & Hl & Hfind & Hlp & HL & HF & ->).
  edestruct started_facts as (Hrd & _ & _ & Ht1 & _); [exact Hs|].
  edestruct run_observed as (Ha & _); [exact Hs|exact HF|].
  cbn zeta in Ha. rewrite Ha.
  assert (EvComplete mp (Ok tt) ∈ tF) as HinF.
  { apply elem_of_run in Hin as [Hin|[?|[?|[Hin|Hin]]]]; try done.
    - rewrite Forall_forall in Ht1. by apply Ht1 in Hin.
    - apply loop_events in HL. rewrite Forall_forall in HL. by apply HL in Hin. }
  destruct HF as [e dL0|dL0|st dL0 e Hc|st dL0 Hc Hd];
    rewrite ?elem_of_cons, elem_of_nil in HinF;
    repeat (destruct HinF as [HinF|HinF]; try done); try tauto.
  split_and!.
  - done.
  - intros n Hn. rewrite fmap_app, elem_of_app.
    pose proof (loop_acks _ _ _ _ _ _ _ _ _ _ _ _ HL) as [_ Hall].
    cbn zeta in Hall. rewrite (Hall st eq_refl), <- Hrd.
    destruct (dict_mem n (uploaded_parts_of (parts rd))) eqn:Hmem.
    + left. apply dec_stable. intros Hnot.
      apply dict_mem_uploaded_parts in Hnot. congruence.
    + right. apply list_elem_of_filter. split; [done|].
      apply list_elem_of_fmap. exists (n - 1). split; [lia|].
      apply elem_of_range. lia.
  - apply elem_of_run. right; right; right; right.
    rewrite !elem_of_cons. tauto.
  - apply lookup_delete_eq.
Qed.

(** C4. When the remote completion succeeds, every part of
    [1..part_count] has a record, from the loaded resume record or from this
    run; the function removes the resume record and returns
    [ks3://<bucket>/<remote_key>].  No record being left, any later run for
    the same file starts by initiating a new session and does not resume. *)
Theorem completion_removes_resume_record w bucket_name local_path remote_key
    file_size d mp :
  let run := multipart_upload_with_resume w bucket_name local_path remote_key
               file_size d in
  EvComplete mp (Ok tt) ∈ trace run →
  outcome run = Ok (Some ("ks3://" +:+ bucket_name +:+ "/" +:+ remote_key)) ∧
  (∀ n, 1 ≤ n ≤ part_count file_size →
     n ∈ part_num <$> (recorded_parts d (resume_path local_path)
                         ++ acks (trace run))) ∧
  EvRemove (resume_path local_path) ∈ trace run ∧
  final_disk run !! resume_path local_path = None ∧
  (∀ w2 bucket_name2 remote_key2 file_size2,
     let run2 := multipart_upload_with_resume w2 bucket_name2 local_path
                   remote_key2 file_size2 (final_disk run) in
     (∃ t', trace run2
              = EvInitiate remote_key2
                  (ks3_initiate_multipart_upload w2 remote_key2) :: t') ∧
     EvPrint MsgResumeFound ∉ trace run2).
Proof.
  intros run Hin.
  pose proof (run_of_shape w bucket_name local_path remote_key file_size d) as Hs.
  cbn zeta in Hs. fold run in Hs.
  destruct (run_completed _ _ _ _ _ _ _ _ _ _ Hs Hin) as (Hr & Hall & Hrm & Hd).
  split_and!; try done.
  intros w2 bucket_name2 remote_key2 file_size2 run2.
  eapply run_fresh; [apply run_of_shape|exact Hd].
Qed.









Lemma find_by_id_Some uid l mp :
  find_by_id uid l = Some mp → mp ∈ l ∧ s_id mp = uid.
Proof.
  intros [Hin Heq]%find_some. split; [by apply list_elem_of_In|].
  by apply String.eqb_eq.
Qed.

Lemma run_session_not_listed w bucket_name local_path remote_key file_size
    d r d' t uid l :
  run_shape w bucket_name local_path remote_key file_size d r d' t →
  (d !! resume_path local_path = None ∧
   ks3_initiate_multipart_upload w remote_key = Ok uid) ∨
  (∃ f rd, d !! resume_path local_path = Some f ∧ f_json f = Some rd ∧
           upload_id rd = uid) →
  ks3_get_all_multipart_uploads w remote_key = Ok l →
  (∀ x, x ∈ l → s_id x ≠ uid) →
  r = Ok None ∧
  (∃ f rd, d' !! resume_path local_path = Some f ∧ f_json f = Some rd ∧
           upload_id rd = uid ∧
           parts rd = recorded_parts d (resume_path local_path)) ∧
  ∃ t1, Forall start_event t1 ∧ (EvPrint MsgSessionNotFound ∉ t1) ∧
        t = t1 ++ [EvPrint MsgSessionNotFound].
Proof.
  intros Hrun Hbranch Hl Hno.
  assert (∀ rd d1 t1, started w local_path remote_key d rd d1 t1 →
            upload_id rd = uid) as Huid.
  { intros rd d1 t1 [uid' Hd Hi|f rd' Hd Hj];
      destruct Hbranch as [[Hd' Hi']|(f' & rd'' & Hd' & Hj' & Hu)];
      simpl; congruence. }
  destruct Hrun as [f Hd Hj|e Hd Hi|rd d1 t1 e Hs Hl'|rd d1 t1 l' Hs Hl' Hfind
         |rd d1 t1 l' mp Hs Hl' Hfind Hlp
         |rd d1 t1 l' mp f rL dL tL r0 d0 tF Hs Hl' Hfind Hlp HL HF].
  - destruct Hbranch as [[Hd' _]|(f' & rd' & Hd' & Hj' & _)]; congruence.
  - destruct Hbranch as [[_ Hi']|(f' & rd' & Hd' & _)]; congruence.
  - congruence.
  - edestruct started_facts as (Hrd & _ & (f1 & Hf1 & Hj1) & Ht1 & _); [exact Hs|].
    split; [done|]. split.
    + exists f1, rd. split_and!; eauto.
    + exists (t1 ++ [EvListUploads remote_key (Ok l')]). split_and!.
      * apply Forall_app. split; [done|by repeat constructor].
      * rewrite elem_of_app, list_elem_of_singleton. intros [Hin|?]; [|done].
        destruct Hs; rewrite ?elem_of_cons, elem_of_nil in Hin;
          repeat (destruct Hin as [Hin|Hin]; try done); tauto.
      * by rewrite <- app_assoc.
  - apply find_by_id_Some in Hfind as [Hin Hid].
    rewrite (Huid _ _ _ Hs) in Hid. assert (l' = l) as -> by congruence.
    by destruct (Hno _ Hin).
  - apply find_by_id_Some in Hfind as [Hin Hid].
    rewrite (Huid _ _ _ Hs) in Hid. assert (l' = l) as -> by congruence.
    by destruct (Hno _ Hin).
Qed.

(** The two failures never print the same thing. *)
Lemma run_give_up_not_missing w bucket_name local_path remote_key file_size
    d r d' t n :
  run_shape w bucket_name local_path remote_key file_size d r d' t →
  EvPrint (MsgPartGiveUp n) ∈ t →
  EvPrint MsgSessionNotFound ∉ t.
Proof.
  intros [(Hst & _)|Hs]%run_shape_inv Hin.
  { rewrite Forall_forall in Hst. by apply Hst in Hin. }
  destruct Hs as (rd & d1 & t1 & l & mp0 & f & rL & dL & tL & tF
                  & Hs & Hl & Hfind & Hlp & HL & HF & ->).
  intros Hmiss. apply elem_of_run in Hmiss as [Hmiss|[?|[?|[Hmiss|Hmiss]]]];
    try done.
  - destruct Hs; rewrite ?elem_of_cons, elem_of_nil in Hmiss;
      repeat (destruct Hmiss as [Hmiss|Hmiss]; try done); tauto.
  - apply loop_events in HL. rewrite Forall_forall in HL. by apply HL in Hmiss.
  - destruct HF; rewrite ?elem_of_cons, elem_of_nil in Hmiss;
      repeat (destruct Hmiss as [Hmiss|Hmiss]; try done); tauto.
Qed.

(** C7. Fresh or resuming, when the listing for the target key has no
    session with the upload id in use, the function stops before any upload:
    it prints the session-not-found line and returns [None]; no part is
    uploaded, nothing is aborted, and the resume record stays on the disk.
    What tells this failure from an exhausted part is the console: the line
    printed here is never printed by a run that gives up on a part (the value
    returned is [None] in both). *)
Theorem missing_session_stops_before_any_upload w bucket_name local_path
    remote_key file_size d uid l :
  let run := multipart_upload_with_resume w bucket_name local_path remote_key
               file_size d in
  (d !! resume_path local_path = None ∧
   ks3_initiate_multipart_upload w remote_key = Ok uid) ∨
  (∃ f rd, d !! resume_path local_path = Some f ∧ f_json f = Some rd ∧
           upload_id rd = uid) →
  ks3_get_all_multipart_uploads w remote_key = Ok l →
  (∀ x, x ∈ l → s_id x ≠ uid) →
  outcome run = Ok None ∧
  uploads (trace run) = [] ∧
  (∃ f rd, final_disk run !! resume_path local_path = Some f ∧
           f_json f = Some rd ∧ upload_id rd = uid ∧
           parts rd = recorded_parts d (resume_path local_path)) ∧
  (∀ p, EvRemove p ∉ trace run) ∧
  (∀ mp r, EvCancel mp r ∉ trace run) ∧
  last (trace run) = Some (EvPrint MsgSessionNotFound) ∧
  (∀ n, EvPrint (MsgPartGiveUp n) ∉ trace run) ∧
  (∀ w' bucket_name' local_path' remote_key' file_size' d' n,
     let run' := multipart_upload_with_resume w' bucket_name' local_path'
                   remote_key' file_size' d' in
     EvPrint (MsgPartGiveUp n) ∈ trace run' →
     EvPrint MsgSessionNotFound ∉ trace run').
Proof.
  intros run Hbranch Hl Hno.
  pose proof (run_of_shape w bucket_name local_path remote_key file_size d) as Hs.
  cbn zeta in Hs. fold run in Hs.
  destruct (run_session_not_listed _ _ _ _ _ _ _ _ _ _ _ Hs Hbranch Hl Hno)
    as (Hr & Hdisk & t1 & Ht1 & Hnot & Ht).
  assert (∀ e, e ∈ trace run → start_event e) as Hstart.
  { intros e. rewrite Ht, elem_of_app, list_elem_of_singleton.
    rewrite Forall_forall in Ht1. intros [?| ->]; [auto|done]. }
  split_and!; try done.
  - rewrite Ht, uploads_app.
    apply start_only_observed in Ht1 as (-> & _). done.
  - intros p Hp. by apply Hstart in Hp.
  - intros mp r Hp. by apply Hstart in Hp.
  - rewrite Ht. apply last_snoc.
  - intros n Hp. by apply Hstart in Hp.
  - intros w' bucket_name' local_path' remote_key' file_size' d' n run'.
    eapply run_give_up_not_missing. apply run_of_shape.
Qed.

(** ** [upload_file] *)

Lemma upload_file_missing w bucket_name local_path remote_key d :
  d !! local_path = None →
  upload_file w bucket_name local_path remote_key d
    = (Raise (FileNotFoundError local_path), d, []).
Proof.
  intros Hd. unfold upload_file, bind, path_exists.
  rewrite bool_decide_eq_false_2 by (rewrite Hd; intros [? ?]; done).
  reflexivity.
Qed.

Lemma upload_file_single_shot w bucket_name local_path remote_key d f :
  d !! local_path = Some f →
  f_len f ≤ threshold →
  upload_file w bucket_name local_path remote_key d
    = (match ks3_set_contents_from_filename w remote_key local_path with
       | Ok _ => Ok (Some (object_address bucket_name remote_key))
       | Raise _ => Ok None
       end,
       d,
       [EvPrint (MsgBucket bucket_name); EvPrint (MsgLocalPath local_path);
        EvPrint (MsgRemotePath remote_key (f_len f));
        EvPut remote_key local_path
          (ks3_set_contents_from_filename w remote_key local_path);
        EvPrint (match ks3_set_contents_from_filename w remote_key local_path with
                 | Ok _ => MsgUploadOk
                 | Raise e => MsgUploadFailed e
                 end)]).
Proof.
  intros Hd Hlen. unfold upload_file, bind at 1, path_exists.
  rewrite bool_decide_eq_true_2 by (rewrite Hd; eauto). cbn [negb].
  unfold bind at 1, getsize. rewrite Hd.
  unfold threshold in Hlen.
  destruct (Z.ltb_spec (100 * 1024 * 1024) (f_len f)) as [?|_]; [lia|].
  unfold bind, print, emit, try, call, ret.
  destruct (ks3_set_contents_from_filename w remote_key local_path) as [[]|e];
    reflexivity.
Qed.

Lemma upload_file_multipart w bucket_name local_path remote_key d f :
  d !! local_path = Some f →
  threshold < f_len f →
  let run := multipart_upload_with_resume w bucket_name local_path remote_key
               (f_len f) d in
  upload_file w bucket_name local_path remote_key d
    = (outcome run, final_disk run,
       [EvPrint (MsgBucket bucket_name); EvPrint (MsgLocalPath local_path);
        EvPrint (MsgRemotePath remote_key (f_len f))] ++ trace run).
Proof.
  intros Hd Hlen run. unfold upload_file, bind at 1, path_exists.
  rewrite bool_decide_eq_true_2 by (rewrite Hd; eauto). cbn [negb].
  unfold bind at 1, getsize. rewrite Hd.
  unfold threshold in Hlen.
  destruct (Z.ltb_spec (100 * 1024 * 1024) (f_len f)) as [_|?]; [|lia].
  unfold bind, print, emit. subst run.
  destruct (multipart_upload_with_resume _ _ _ _ _ _) as [[r d'] t].
  reflexivity.
Qed.








(** ** Removing the resume record *)

Lemma run_remove w bucket_name local_path remote_key file_size d r d' t p :
  run_shape w bucket_name local_path remote_key file_size d r d' t →
  EvRemove p ∈ t →
  p = resume_path local_path ∧
  r = Ok (Some (object_address bucket_name remote_key)) ∧
  ∃ mp t0, t = t0 ++ [EvComplete mp (Ok tt); EvRemove (resume_path local_path);
                      EvPrint MsgMultipartOk] ∧
           (∀ q, EvRemove q ∉ t0).
Proof.
  intros [(Hst & _)|Hs]%run_shape_inv Hin.
  { rewrite Forall_forall in Hst. by apply Hst in Hin. }
  destruct Hs as (rd & d1 & t1 & l & mp & f & rL & dL & tL & tF
                  & Hs & Hl & Hfind & Hlp & HL & HF & ->).
  edestruct started_facts as (_ & _ & _ & Ht1 & _); [exact Hs|].
  pose proof (loop_events _ _ _ _ _ _ _ _ _ _ _ _ HL) as Hev.
  rewrite Forall_forall in Ht1, Hev.
  assert (∀ q, EvRemove q ∉ t1 ++ [EvListUploads remote_key (Ok l);
            EvProgress (sum_list (size <$> dict_values
                          (uploaded_parts_of (parts rd))))] ++ tL) as Hnot.
  { intros q. rewrite !elem_of_app, !elem_of_cons, elem_of_nil.
    intros [Hq|[[?|[?|[]]]|Hq]]; try done.
    - by apply Ht1 in Hq.
    - by apply Hev in Hq. }
  assert (EvRemove p ∈ tF) as HinF.
  { apply elem_of_run in Hin as [Hin|[?|[?|[Hin|Hin]]]]; try done.
    - by apply Ht1 in Hin.
    - by apply Hev in Hin. }
  destruct HF as [e' dL0|dL0|st dL0 e' Hc|st dL0 Hc Hd];
    rewrite ?elem_of_cons, elem_of_nil in HinF;
    repeat (destruct HinF as [HinF|HinF]; try done); try tauto.
  simplify_eq. split_and!; [done|done|].
  exists mp, (t1 ++ [EvListUploads remote_key (Ok l);
            EvProgress (sum_list (size <$> dict_values
                          (uploaded_parts_of (parts rd))))] ++ tL).
  split; [by rewrite <- !app_assoc|done].
Qed.

(** C9, as the code has it.  The resume record is deleted with
    [os.remove]: it succeeds on a record that exists and raises
    [FileNotFoundError] on one that is absent, so that a second delete in a
    row always fails.  [multipart_upload_with_resume] deletes at most once,
    as its last step but one after a successful completion, when the record
    exists; there the delete does not fail. *)
Theorem delete_raises_on_absent_record path d :
  (is_Some (d !! path) →
     os_remove path d = (Ok tt, delete path d, [EvRemove path])) ∧
  (d !! path = None →
     os_remove path d = (Raise (FileNotFoundError path), d, [])) ∧
  outcome ((do _ <- os_remove path; os_remove path) d)
    = Raise (FileNotFoundError path) ∧
  (∀ w bucket_name local_path remote_key file_size d0 p,
     let run := multipart_upload_with_resume w bucket_name local_path
                  remote_key file_size d0 in
     EvRemove p ∈ trace run →
     p = resume_path local_path ∧
     outcome run = Ok (Some (object_address bucket_name remote_key)) ∧
     ∃ mp t0,
       trace run = t0 ++ [EvComplete mp (Ok tt);
                          EvRemove (resume_path local_path);
                          EvPrint MsgMultipartOk] ∧
       (∀ q, EvRemove q ∉ t0)).
Proof.
  split_and!.
  - intros [f Hf]. unfold os_remove. by rewrite Hf.
  - intros Hd. unfold os_remove. by rewrite Hd.
  - unfold bind, os_remove. destruct (d !! path) as [f|] eqn:Hd.
    + by rewrite lookup_delete_eq.
    + done.
  - intros w bucket_name local_path remote_key file_size d0 p run Hin.
    eapply run_remove; [apply run_of_shape|exact Hin].
Qed.

(** C9 as stated fails: the second delete of a record raises. *)
Lemma second_delete_raises :
  outcome ((do _ <- os_remove ".resume_big.bin.json";
            os_remove ".resume_big.bin.json") Examples.disk12)
    = Raise (FileNotFoundError ".resume_big.bin.json") ∧
  ¬ (∀ path d,
       ∃ v, outcome ((do _ <- os_remove path; os_remove path) d) = Ok v).
Proof.
  split; [reflexivity|].
  intros H. destruct (H ".resume_big.bin.json" Examples.disk12) as [v Hv].
  vm_compute in Hv. discriminate.
Qed.

(** ** The path of the resume record *)

Lemma run_touches_record_only w bucket_name local_path remote_key file_size
    d r d' t :
  run_shape w bucket_name local_path remote_key file_size d r d' t →
  Forall (touches_only (resume_path local_path)) t ∧
  (∀ p, p ≠ resume_path local_path → d' !! p = d !! p).
Proof.
  assert (∀ rd d1 t1, started w local_path remote_key d rd d1 t1 →
            Forall (touches_only (resume_path local_path)) t1) as Hstart.
  { intros rd d1 t1 [uid _ _|f rd' _ _]; by repeat constructor. }
  intros [f Hd Hj|e Hd Hi|rd d1 t1 e Hs Hl|rd d1 t1 l Hs Hl Hfind
         |rd d1 t1 l mp Hs Hl Hfind Hlp
         |rd d1 t1 l mp f rL dL tL r0 d0 tF Hs Hl Hfind Hlp HL HF].
  - split; [constructor|done].
  - split; [by repeat constructor|done].
  - edestruct started_facts as (_ & Hd1 & _); [exact Hs|].
    split; [|done]. apply Forall_app. split; [eauto|by repeat constructor].
  - edestruct started_facts as (_ & Hd1 & _); [exact Hs|].
    split; [|done]. apply Forall_app. split; [eauto|by repeat constructor].
  - edestruct started_facts as (_ & Hd1 & _); [exact Hs|].
    split; [|done]. apply Forall_app. split; [eauto|by repeat constructor].
  - edestruct started_facts as (_ & Hd1 & _); [exact Hs|].
    edestruct finish_facts as (HdF & _); [exact HF|].
    destruct (loop_state _ _ _ _ _ _ _ _ _ _ _ _ HL) as (_ & HdL & _).
    split.
    + rewrite !Forall_app. split_and!.
      * eauto.
      * by repeat constructor.
      * eapply Forall_impl; [eapply loop_events; exact HL|].
        intros [[]| | | | | | | | | | | |]; simpl; tauto.
      * destruct HF; by repeat constructor.
    + intros p Hp. by rewrite HdF, HdL, Hd1.
Qed.

Lemma run_resumes w bucket_name local_path remote_key file_size d r d' t f rd :
  run_shape w bucket_name local_path remote_key file_size d r d' t →
  d !! resume_path local_path = Some f → f_json f = Some rd →
  ∃ t', t = EvPrint MsgResumeFound
            :: EvListUploads remote_key
                 (ks3_get_all_multipart_uploads w remote_key) :: t'.
Proof.
  intros Hrun Hd Hj.
  assert (∀ rd' d1 t1, started w local_path remote_key d rd' d1 t1 →
            t1 = [EvPrint MsgResumeFound]) as Hres.
  { intros rd' d1 t1 [uid Hd' _|f' rd'' _ _]; [congruence|done]. }
  destruct Hrun as [f' Hd' Hj'|e Hd' Hi|rd' d1 t1 e Hs Hl|rd' d1 t1 l Hs Hl Hfind
         |rd' d1 t1 l mp Hs Hl Hfind Hlp
         |rd' d1 t1 l mp f' rL dL tL r0 d0 tF Hs Hl Hfind Hlp HL HF];
    [congruence|congruence|rewrite (Hres _ _ _ Hs), Hl; simpl; eauto..].
Qed.

(** C10. The resume record sits at [".resume_" + basename(local_path) +
    ".json"], a bare file name, hence in the current directory.  The path is
    a function of the base name alone: the directory of [local_path] and
    the remote key play no part.  A run writes and removes nothing else and
    leaves every other path of the disk as it was; and a record left at
    that path is resumed by any upload of a file with the same base name, to
    whatever key. *)
Theorem resume_path_depends_on_basename_only :
  (∀ local_path,
     resume_path local_path = ".resume_" +:+ basename local_path +:+ ".json") ∧
  (∀ local_path, has_char slash (resume_path local_path) = false) ∧
  (∀ dir name, has_char slash name = false →
     basename (dir +:+ "/" +:+ name) = name ∧ basename name = name) ∧
  (∀ dir1 dir2 name, has_char slash name = false →
     resume_path (dir1 +:+ "/" +:+ name) = ".resume_" +:+ name +:+ ".json" ∧
     resume_path (dir2 +:+ "/" +:+ name) = resume_path (dir1 +:+ "/" +:+ name) ∧
     resume_path name = resume_path (dir1 +:+ "/" +:+ name)) ∧
  (∀ w bucket_name local_path remote_key file_size d,
     let run := multipart_upload_with_resume w bucket_name local_path
                  remote_key file_size d in
     Forall (touches_only (resume_path local_path)) (trace run) ∧
     (∀ p, p ≠ resume_path local_path → final_disk run !! p = d !! p)) ∧
  (∀ w bucket_name local_path1 local_path2 remote_key file_size d f rd,
     basename local_path1 = basename local_path2 →
     d !! resume_path local_path1 = Some f → f_json f = Some rd →
     ∃ t', trace (multipart_upload_with_resume w bucket_name local_path2
                    remote_key file_size d)
           = EvPrint MsgResumeFound
               :: EvListUploads remote_key
                    (ks3_get_all_multipart_uploads w remote_key) :: t').
Proof.
  split_and!.
  - done.
  - apply resume_path_no_slash.
  - intros dir name Hn. split; [by apply basename_join|by apply basename_plain].
  - intros dir1 dir2 name Hn. unfold resume_path.
    rewrite !basename_join, basename_plain by done. done.
  - intros w bucket_name local_path remote_key file_size d run.
    eapply run_touches_record_only. apply run_of_shape.
  - intros w bucket_name local_path1 local_path2 remote_key file_size d f rd
      Hb Hd Hj.
    eapply run_resumes; [apply run_of_shape| |exact Hj].
    unfold resume_path in *. by rewrite <- Hb.
Qed.

(** * Further properties of the code *)

(** ** Configuration and construction *)

Lemma getenv_set_true environ var :
  getenv_set environ var = true ↔ ∃ v, environ !! var = Some v ∧ v ≠ "".
Proof.
  unfold getenv_set. destruct (environ !! var) as [v|]; split.
  - intros Hv. exists v. split; [done|]. intros ->. done.
  - intros (v' & [= <-] & Hne). apply negb_true_iff.
    destruct (String.eqb_spec v ""); done.
  - done.
  - intros (v & ? & _). done.
Qed.

Lemma missing_vars_spec environ var :
  In var (List.filter (λ v, negb (getenv_set environ v)) required_vars) ↔
  In var required_vars ∧ (environ !! var = None ∨ environ !! var = Some "").
Proof.
  rewrite filter_In, negb_true_iff. unfold getenv_set.
  destruct (environ !! var) as [v|]; [|intuition].
  destruct (String.eqb_spec v ""); subst; simpl; intuition congruence.
Qed.

Lemma sublist_List_filter {A} (f : A → bool) (l : list A) :
  sublist (List.filter f l) l.
Proof.
  induction l as [|x l IH]; simpl; [constructor|].
  destruct (f x); by constructor.
Qed.

(** X1. [_validate_config] reads the environment only: it returns exactly
    when each of the four required variables is set to a non-empty string,
    and otherwise raises [ValueError] with the variables that are unset or
    empty, in the order of [required_vars]. *)
Theorem validate_config_accepts_complete_environment environ d :
  let run := _validate_config environ d in
  let missing := List.filter (λ var, negb (getenv_set environ var))
                   required_vars in
  trace run = [] ∧
  final_disk run = d ∧
  (outcome run = Ok tt ↔
     ∀ var, In var required_vars → ∃ v, environ !! var = Some v ∧ v ≠ "") ∧
  (outcome run ≠ Ok tt → outcome run = Raise (ValueError missing)) ∧
  (∀ var, In var missing ↔
     In var required_vars ∧
     (environ !! var = None ∨ environ !! var = Some "")) ∧
  sublist missing required_vars.
Proof.
  intros run missing.
  assert (missing = [] ↔
          ∀ var, In var required_vars → ∃ v, environ !! var = Some v ∧ v ≠ "")
    as Hempty.
  { split.
    - intros Hm var Hin. apply getenv_set_true.
      destruct (getenv_set environ var) eqn:Hg; [done|].
      assert (In var missing) as Hin'
        by (apply filter_In; rewrite Hg; done).
      rewrite Hm in Hin'. done.
    - intros Hall. destruct missing as [|var rest] eqn:Hm; [done|].
      assert (In var missing) as Hin by (rewrite Hm; left; done).
      apply filter_In in Hin as [Hin Hg].
      apply Hall, getenv_set_true in Hin. rewrite Hin in Hg. done. }
  subst run. unfold _validate_config. fold missing.
  destruct missing as [|var rest] eqn:Hm.
  - split_and!; try done.
    + split; [intros _; by apply Hempty|done].
    + intros var. rewrite <- Hm. apply missing_vars_spec.
    + rewrite <- Hm. apply sublist_List_filter.
  - split_and!; try done.
    + split; [done|]. intros Hall. apply Hempty in Hall. done.
    + intros var'. rewrite <- Hm. apply missing_vars_spec.
    + rewrite <- Hm. apply sublist_List_filter.
Qed.

(** X2. The constructor checks the configuration before it talks to the
    service: with a variable missing it raises without any remote call;
    otherwise it asks for the bucket named by [KS3_BUCKET], once, and the
    uploader carries that name unless the request raises. *)
Theorem init_checks_configuration_first w environ d :
  let run := __init__ w environ d in
  let missing := List.filter (λ var, negb (getenv_set environ var))
                   required_vars in
  final_disk run = d ∧
  (missing ≠ [] →
     outcome run = Raise (ValueError missing) ∧ trace run = []) ∧
  (missing = [] →
     ∃ b, environ !! "KS3_BUCKET" = Some b ∧ b ≠ "" ∧
          trace run = [EvGetBucket b (ks3_get_bucket w b)] ∧
          outcome run = match ks3_get_bucket w b with
                        | Ok _ => Ok b
                        | Raise e => Raise e
                        end).
Proof.
  intros run missing. subst run. unfold __init__, bind, _validate_config.
  fold missing.
  assert (missing = [] → ∃ b, environ !! "KS3_BUCKET" = Some b ∧ b ≠ "") as Hb.
  { intros Hm. apply getenv_set_true.
    destruct (getenv_set environ "KS3_BUCKET") eqn:Hg; [done|].
    assert (In "KS3_BUCKET" missing) as Hin.
    { apply filter_In. rewrite Hg. split; [|done]. simpl. tauto. }
    rewrite Hm in Hin. done. }
  destruct missing as [|var rest] eqn:Hm.
  - destruct (Hb eq_refl) as (b & Hlook & Hne). rewrite Hlook. simpl.
    unfold call.
    destruct (ks3_get_bucket w b) as [[]|e] eqn:Hg;
      (split_and!; [done|done|]; intros _; exists b; rewrite Hg; done).
  - split_and!; done.
Qed.

(** ** Dispatch in [upload_file] *)

Lemma trace_triple {A} (r : result A) (d : disk) (t : list event) :
  trace (r, d, t) = t.
Proof. reflexivity. Qed.

Lemma puts_app t1 t2 : puts (t1 ++ t2) = puts t1 ++ puts t2.
Proof. apply omap_app. Qed.

(** The events the multipart routine can produce. *)
Lemma run_events w bucket_name local_path remote_key file_size d r d' t e :
  run_shape w bucket_name local_path remote_key file_size d r d' t →
  e ∈ t →
  outer_event e ∨ ∃ mp up flen idx,
    loop_event w mp (resume_path local_path) file_size flen up idx e.
Proof.
  intros [(Hst & _)|Hs]%run_shape_inv Hin.
  { rewrite Forall_forall in Hst. left. by apply start_event_outer, Hst. }
  destruct Hs as (rd & d1 & t1 & l & mp & f & rL & dL & tL & tF
                  & Hs & Hl & Hfind & Hlp & HL & HF & ->).
  edestruct started_facts as (_ & _ & _ & Ht1 & _); [exact Hs|].
  edestruct finish_facts as (_ & HtF & _); [exact HF|].
  pose proof (loop_events _ _ _ _ _ _ _ _ _ _ _ _ HL) as Hev.
  rewrite Forall_forall in Ht1, HtF, Hev.
  apply elem_of_run in Hin as [Hin|[->|[->|[Hin|Hin]]]].
  - left. by apply start_event_outer, Ht1.
  - by left.
  - by left.
  - right. eauto 10.
  - left. auto.
Qed.

Lemma run_no_put w bucket_name local_path remote_key file_size d r d' t :
  run_shape w bucket_name local_path remote_key file_size d r d' t →
  puts t = [].
Proof.
  intros Hs.
  assert (∀ e, e ∈ t → put_of e = None) as Hnone.
  { intros e He. destruct (run_events _ _ _ _ _ _ _ _ _ _ Hs He)
      as [Ho|(mp & up & flen & idx & Hl)];
      destruct e as [[]| | | | | | | | | | | |]; simpl in *; done. }
  clear Hs. induction t as [|e t IH]; [done|].
  unfold puts. simpl. rewrite (Hnone e) by (left). apply IH.
  intros e' He'. apply Hnone. by right.
Qed.

(** X3. A file of at most 100 MiB (the bound included) is sent in one
    request and nothing else happens: the disk is left as it was, no resume
    record is written, no multipart call is made, and no exception leaves
    the function; the address is returned when the transfer went through
    and [None] when it raised. *)
Theorem small_file_is_sent_in_one_request w bucket_name local_path remote_key
    d f :
  d !! local_path = Some f →
  f_len f ≤ 100 * 1024 * 1024 →
  let run := upload_file w bucket_name local_path remote_key d in
  final_disk run = d ∧
  puts (trace run) = [(remote_key, local_path)] ∧
  uploads (trace run) = [] ∧
  (∀ e, e ∈ trace run →
     (∃ m, e = EvPrint m) ∨
     e = EvPut remote_key local_path
           (ks3_set_contents_from_filename w remote_key local_path)) ∧
  (ks3_set_contents_from_filename w remote_key local_path = Ok tt →
     outcome run = Ok (Some ("ks3://" +:+ bucket_name +:+ "/" +:+ remote_key))) ∧
  (∀ e, ks3_set_contents_from_filename w remote_key local_path = Raise e →
     outcome run = Ok None ∧ last (trace run) = Some (EvPrint (MsgUploadFailed e))).
Proof.
  intros Hd Hlen run. subst run.
  rewrite (upload_file_single_shot _ _ _ _ _ f Hd Hlen).
  unfold final_disk, trace, outcome. simpl.
  split_and!; try done.
  - intros e. rewrite !elem_of_cons, elem_of_nil.
    intros [->|[->|[->|[->|[->|[]]]]]]; eauto.
  - intros ->. done.
  - intros e ->. done.
Qed.

(** X4. [upload_file] takes one way or the other, never both: a
    single-shot transfer occurs exactly when the file exists and is at most
    100 MiB, and any multipart call or resume-record write means the file is
    larger than that. *)
Theorem upload_file_takes_one_way w bucket_name local_path remote_key d :
  let run := upload_file w bucket_name local_path remote_key d in
  (puts (trace run) ≠ [] ↔
     ∃ f, d !! local_path = Some f ∧ f_len f ≤ 100 * 1024 * 1024) ∧
  (∀ e, e ∈ trace run →
     match e with
     | EvInitiate _ _ | EvListUploads _ _ | EvUploadPart _ _ _ _ _
     | EvWrite _ _ | EvRemove _ | EvCancel _ _ | EvComplete _ _ =>
         ∃ f, d !! local_path = Some f ∧ 100 * 1024 * 1024 < f_len f ∧
              e ∈ trace (multipart_upload_with_resume w bucket_name
                           local_path remote_key (f_len f) d)
     | _ => True
     end).
Proof.
  intros run. subst run.
  destruct (d !! local_path) as [f|] eqn:Hd.
  2:{ rewrite upload_file_missing by done. unfold trace. simpl. split.
      - split; [done|]. intros (f & ? & _). done.
      - intros e He. by apply elem_of_nil in He. }
  destruct (Z.le_gt_cases (f_len f) threshold) as [Hle|Hgt].
  - rewrite (upload_file_single_shot _ _ _ _ _ f Hd Hle). unfold trace. simpl.
    split.
    + split; [eauto|done].
    + intros e. rewrite !elem_of_cons, elem_of_nil.
      intros [->|[->|[->|[->|[->|[]]]]]]; done.
  - rewrite (upload_file_multipart _ _ _ _ _ f Hd Hgt).
    set (mrun := multipart_upload_with_resume w bucket_name local_path
                   remote_key (f_len f) d).
    assert (puts (trace mrun) = []) as Hp
      by (eapply run_no_put, run_of_shape).
    rewrite !trace_triple. split.
    + rewrite puts_app, Hp.
      split; [done|]. intros (f' & [= <-] & Hle). unfold threshold in Hgt. lia.
    + intros e. rewrite elem_of_app, !elem_of_cons, elem_of_nil.
      intros [[->|[->|[->|[]]]]|He]; try done.
      destruct e; try done; exists f; unfold threshold in Hgt; done.
Qed.

(** ** [upload.py] *)

Lemma uploadpy_upload_file_run w bucket_name local_path remote_key d f :
  d !! local_path = Some f →
  UploadPy.upload_file w bucket_name local_path remote_key d
    = (match ks3_set_contents_from_filename w remote_key local_path with
       | Ok _ => Ok (Some (object_address bucket_name remote_key))
       | Raise _ => Ok None
       end,
       d,
       [EvPrint (MsgBucket bucket_name); EvPrint (MsgLocalPath local_path);
        EvPrint (MsgRemotePath remote_key (f_len f));
        EvPut remote_key local_path
          (ks3_set_contents_from_filename w remote_key local_path);
        EvPrint (match ks3_set_contents_from_filename w remote_key local_path with
                 | Ok _ => MsgUploadOk
                 | Raise e => MsgUploadFailed e
                 end)]).
Proof.
  intros Hd. unfold UploadPy.upload_file, bind at 1, path_exists.
  rewrite bool_decide_eq_true_2 by (rewrite Hd; eauto). cbn [negb].
  unfold bind at 1, getsize. rewrite Hd.
  unfold bind, print, emit, try, call, ret.
  destruct (ks3_set_contents_from_filename w remote_key local_path) as [[]|e];
    reflexivity.
Qed.

(** X5. The [upload_file] of [upload.py] and that of
    [upload_large_file.py] agree on a missing file, where both raise
    [FileNotFoundError] before printing anything, and on every file of at
    most 100 MiB, where they return the same value, leave the same disk and
    make the same request; on a larger file [upload.py] still makes its one
    request, leaves the disk alone and makes no multipart call. *)
Theorem upload_py_agrees_below_threshold w bucket_name local_path remote_key d :
  let old := UploadPy.upload_file w bucket_name local_path remote_key d in
  let new := upload_file w bucket_name local_path remote_key d in
  (d !! local_path = None →
     outcome old = Raise (FileNotFoundError local_path) ∧
     outcome new = Raise (FileNotFoundError local_path) ∧
     trace old = [] ∧ trace new = [] ∧
     final_disk old = d ∧ final_disk new = d) ∧
  (∀ f, d !! local_path = Some f → f_len f ≤ 100 * 1024 * 1024 →
     outcome old = outcome new ∧
     final_disk old = final_disk new ∧
     requests (trace old) = requests (trace new) ∧
     length (trace old) = length (trace new)) ∧
  (∀ f, d !! local_path = Some f →
     final_disk old = d ∧
     puts (trace old) = [(remote_key, local_path)] ∧
     uploads (trace old) = [] ∧
     requests (trace old)
       = [EvPut remote_key local_path
            (ks3_set_contents_from_filename w remote_key local_path)] ∧
     ∃ v, outcome old = Ok v).
Proof.
  intros old new. subst old new. split_and!.
  - intros Hd. rewrite upload_file_missing by done.
    unfold UploadPy.upload_file, bind, path_exists.
    rewrite bool_decide_eq_false_2 by (rewrite Hd; intros [? ?]; done).
    done.
  - intros f Hd Hle.
    rewrite (upload_file_single_shot _ _ _ _ _ f Hd Hle).
    by rewrite (uploadpy_upload_file_run _ _ _ _ _ f Hd).
  - intros f Hd. rewrite (uploadpy_upload_file_run _ _ _ _ _ f Hd).
    unfold final_disk, trace, outcome. simpl. split_and!; try done.
    destruct (ks3_set_contents_from_filename w remote_key local_path); eauto.
Qed.

(** ** [generate_presigned_url] and [main] *)

Lemma generate_presigned_url_run w object_key d :
  generate_presigned_url w object_key d
    = (Ok (match ks3_generate_url w object_key with
           | Ok (Some u) => Some u
           | _ => None
           end),
       d,
       EvGenerateUrl object_key (ks3_generate_url w object_key)
         :: match ks3_generate_url w object_key with
            | Ok (Some _) => []
            | Ok None => [EvPrint (MsgKeyNotFound object_key)]
            | Raise e => [EvPrint (MsgPresignFailed e)]
            end).
Proof.
  unfold generate_presigned_url, bind, try, call, print, emit, ret.
  destruct (ks3_generate_url w object_key) as [[u|]|e]; reflexivity.
Qed.

(** X6. [generate_presigned_url] never raises and leaves the disk alone: it
    asks the service once, returns the url when the service gives one, and
    returns [None] after printing the reason when the key is not found or
    the request raises. *)
Theorem presigned_url_is_none_on_any_failure w object_key d :
  let run := generate_presigned_url w object_key d in
  final_disk run = d ∧
  (∃ v, outcome run = Ok v) ∧
  (∀ u, outcome run = Ok (Some u) ↔ ks3_generate_url w object_key = Ok (Some u)) ∧
  (outcome run = Ok None →
     (ks3_generate_url w object_key = Ok None ∧
      last (trace run) = Some (EvPrint (MsgKeyNotFound object_key))) ∨
     (∃ e, ks3_generate_url w object_key = Raise e ∧
           last (trace run) = Some (EvPrint (MsgPresignFailed e)))) ∧
  head (trace run)
    = Some (EvGenerateUrl object_key (ks3_generate_url w object_key)).
Proof.
  intros run. subst run. rewrite generate_presigned_url_run.
  unfold final_disk, outcome, trace. simpl.
  destruct (ks3_generate_url w object_key) as [[u|]|e]; simpl;
    split_and!; try done; eauto.
Qed.

Lemma init_run w environ d :
  final_disk (__init__ w environ d) = d ∧
  (∀ e, e ∈ trace (__init__ w environ d) → ∃ b r, e = EvGetBucket b r) ∧
  (∀ b, outcome (__init__ w environ d) = Ok b →
     b = default "" (environ !! "KS3_BUCKET")).
Proof.
  unfold __init__, bind, _validate_config.
  destruct (List.filter _ required_vars); simpl.
  - unfold call.
    destruct (ks3_get_bucket w (default "" (environ !! "KS3_BUCKET")))
      as [[]|e] eqn:Hg; unfold final_disk, trace, outcome; simpl;
      (split_and!; [done| |]).
    + intros e He. apply list_elem_of_singleton in He as ->. eauto.
    + congruence.
    + intros e' He. apply list_elem_of_singleton in He as ->. eauto.
    + done.
  - unfold final_disk, trace, outcome; simpl. split_and!; [done| |done].
    intros e He. by apply elem_of_nil in He.
Qed.

(** What [upload_file] prints and calls is none of [main]'s own lines. *)
Lemma upload_file_events w bucket_name local_path remote_key d e :
  e ∈ trace (upload_file w bucket_name local_path remote_key d) →
  (∀ k r, e ≠ EvGenerateUrl k r) ∧ (∀ x, e ≠ EvPrint (MsgError x)).
Proof.
  destruct (d !! local_path) as [f|] eqn:Hd.
  2:{ rewrite upload_file_missing by done. intros He. by apply elem_of_nil in He. }
  destruct (Z.le_gt_cases (f_len f) threshold) as [Hle|Hgt].
  - rewrite (upload_file_single_shot _ _ _ _ _ f Hd Hle), trace_triple.
    rewrite !elem_of_cons, elem_of_nil.
    intros [->|[->|[->|[->|[->|[]]]]]]; split; try done.
    all: destruct (ks3_set_contents_from_filename w remote_key local_path); done.
  - rewrite (upload_file_multipart _ _ _ _ _ f Hd Hgt), trace_triple.
    rewrite elem_of_app, !elem_of_cons, elem_of_nil.
    intros [[->|[->|[->|[]]]]|He]; try done.
    destruct (run_events _ _ _ _ _ _ _ _ _ _ (run_of_shape _ _ _ _ _ _) He)
      as [Ho|(mp & up & flen & idx & Hl)];
      destruct e as [[]| | | | | | | | | | | |]; simpl in *; done.
Qed.

(** X7. [main] asks for a presigned url only after [upload_file] has
    returned an address, and for the key just uploaded.  An error line
    comes from an exception of the constructor or of [upload_file], and is
    then the last thing printed; nothing is requested after it. *)
Theorem main_requests_url_after_success w environ local_file ks3_path d :
  let run := main w environ local_file ks3_path d in
  (∀ k r, EvGenerateUrl k r ∈ trace run →
     k = ks3_path ∧
     ∃ b a, outcome (__init__ w environ d) = Ok b ∧
            outcome (upload_file w b local_file ks3_path d) = Ok (Some a)) ∧
  (∀ e, EvPrint (MsgError e) ∈ trace run →
     (outcome (__init__ w environ d) = Raise e ∨
      ∃ b, outcome (__init__ w environ d) = Ok b ∧
           outcome (upload_file w b local_file ks3_path d) = Raise e) ∧
     last (trace run) = Some (EvPrint (MsgError e)) ∧
     ∀ k r, EvGenerateUrl k r ∉ trace run).
Proof.
  intros run. pose proof (eq_refl run) as Hm. unfold run at 2 in Hm.
  clearbody run.
  destruct (init_run w environ d) as (Hid & Hie & _).
  unfold main, bind at 1, try in Hm. unfold bind at 1 in Hm.
  destruct (__init__ w environ d) as [[[b|e0] d1] t1] eqn:Hi;
    unfold final_disk, trace, outcome in Hid, Hie |- *; simpl in Hid, Hie |- *;
    subst d1.
  2:{ unfold print, emit in Hm. simpl in Hm. subst run. simpl. split.
      - intros k r. rewrite elem_of_app, list_elem_of_singleton.
        intros [Hin|?]; [|done]. apply Hie in Hin as (? & ? & ?). done.
      - intros e. rewrite elem_of_app, list_elem_of_singleton.
        intros [Hin|[= ->]]; [apply Hie in Hin as (? & ? & ?); done|].
        split_and!; [by left|apply last_snoc|].
        intros k r. rewrite elem_of_app, list_elem_of_singleton.
        intros [Hin|?]; [|done]. apply Hie in Hin as (? & ? & ?). done. }
  pose proof (upload_file_events w b local_file ks3_path d) as Hue.
  unfold bind at 1 in Hm.
  destruct (upload_file w b local_file ks3_path d) as [[[res|e0] d2] t2] eqn:Hu;
    rewrite trace_triple in Hue.
  2:{ unfold print, emit in Hm. simpl in Hm. subst run. simpl. split.
      - intros k r. rewrite !elem_of_app, list_elem_of_singleton.
        intros [[Hin|Hin]|?]; [| |done].
        + apply Hie in Hin as (? & ? & ?). done.
        + apply Hue in Hin as [Hin _]. by destruct (Hin k r).
      - intros e. rewrite !elem_of_app, list_elem_of_singleton.
        intros [[Hin|Hin]|[= ->]].
        + apply Hie in Hin as (? & ? & ?). done.
        + apply Hue in Hin as [_ Hin]. by destruct (Hin e).
        + split_and!; [right; exists b; by rewrite Hu|apply last_snoc|].
          intros k r. rewrite !elem_of_app, list_elem_of_singleton.
          intros [[Hin|Hin]|?]; [| |done].
          * apply Hie in Hin as (? & ? & ?). done.
          * apply Hue in Hin as [Hin _]. by destruct (Hin k r). }
  assert (∃ tail,
            run.2 = t1 ++ t2 ++ tail ∧
            (∀ e, e ∈ tail → ∀ x, e ≠ EvPrint (MsgError x)) ∧
            (∀ k r, EvGenerateUrl k r ∈ tail → k = ks3_path ∧ ∃ a, res = Some a))
    as (tail & Ht & Hnoerr & Hurl).
  { destruct (truthy res) eqn:Htr.
    - destruct res as [a|]; [|done]. unfold bind at 1, print, emit in Hm.
      unfold bind at 1 in Hm. rewrite generate_presigned_url_run in Hm.
      destruct (ks3_generate_url w ks3_path) as [[u|]|x] eqn:Hg;
        [destruct (truthy (Some u))|..];
        unfold bind, print, emit, ret in Hm; simpl in Hm; subst run; simpl;
        rewrite ?app_nil_r;
        (eexists; split; [reflexivity|]; split;
         [intros e He y; rewrite ?elem_of_cons, elem_of_nil in He;
          repeat (destruct He as [He|He]; try (subst; done)); tauto
         |intros k r He; rewrite ?elem_of_cons, elem_of_nil in He;
          repeat (destruct He as [He|He]; try done);
          try tauto; simplify_eq; eauto]).
    - unfold ret in Hm. simpl in Hm. subst run. simpl. exists [].
      rewrite !app_nil_r. split; [done|].
      split; [intros e He; by apply elem_of_nil in He
             |intros k r He; by apply elem_of_nil in He]. }
  unfold trace. rewrite Ht. split.
  - intros k r. rewrite !elem_of_app. intros [Hin|[Hin|Hin]].
    + apply Hie in Hin as (? & ? & ?). done.
    + apply Hue in Hin as [Hin _]. by destruct (Hin k r).
    + destruct (Hurl _ _ Hin) as (-> & a & ->). split; [done|].
      exists b, a. by rewrite Hu.
  - intros e. rewrite !elem_of_app. intros [Hin|[Hin|Hin]]; exfalso.
    + apply Hie in Hin as (? & ? & ?). done.
    + apply Hue in Hin as [_ Hin]. by destruct (Hin e).
    + by destruct (Hnoerr _ Hin e).
Qed.

(** ** More on [multipart_upload_with_resume] *)

Lemma started_upload_id w local_path remote_key d rd d1 t1 :
  started w local_path remote_key d rd d1 t1 →
  (d !! resume_path local_path = None ∧
   ks3_initiate_multipart_upload w remote_key = Ok (upload_id rd)) ∨
  (∃ f, d !! resume_path local_path = Some f ∧ f_json f = Some rd).
Proof. intros [uid Hd Hi|f rd' Hd Hj]; [left|right]; eauto. Qed.



Lemma find_first {A} (f : A → bool) (l : list A) (x : A) :
  List.find f l = Some x →
  ∃ l1 l2, l = l1 ++ x :: l2 ∧ f x = true ∧ ∀ y, y ∈ l1 → f y = false.
Proof.
  induction l as [|a l IH]; simpl; [done|].
  destruct (f a) eqn:Hfa.
  - intros [= ->]. exists [], l. split_and!; [done|done|].
    intros y Hy. by apply elem_of_nil in Hy.
  - intros (l1 & l2 & -> & Hfx & Hl1)%IH. exists (a :: l1), l2.
    split_and!; [done|done|].
    intros y [->|Hy]%elem_of_cons; auto.
Qed.

Lemma run_upload_session w bucket_name local_path remote_key file_size d r d' t
    mp n len a x :
  run_shape w bucket_name local_path remote_key file_size d r d' t →
  EvUploadPart mp n len a x ∈ t →
  ∃ rd d1 t1 l,
    started w local_path remote_key d rd d1 t1 ∧
    ks3_get_all_multipart_uploads w remote_key = Ok l ∧
    find_by_id (upload_id rd) l = Some mp.
Proof.
  intros [(Hst & _)|Hs]%run_shape_inv Hin.
  { rewrite Forall_forall in Hst. by apply Hst in Hin. }
  destruct Hs as (rd & d1 & t1 & l & mp0 & f & rL & dL & tL & tF
                  & Hs & Hl & Hfind & Hlp & HL & HF & ->).
  eapply run_loop_event in Hin; [|exact Hs|exact HF|by intros []].
  pose proof (loop_events _ _ _ _ _ _ _ _ _ _ _ _ HL) as Hev.
  rewrite Forall_forall in Hev. apply Hev in Hin. simpl in Hin.
  destruct Hin as (-> & _). eauto 10.
Qed.

(** X9. Every part of a run is uploaded to one and the same session: the
    first one in the listing for the key prefix whose id is the upload id in
    use, which is the id just initiated when there was no record and the
    recorded id otherwise.  The key of that session is not looked at. *)
Theorem parts_go_to_first_session_with_upload_id w bucket_name local_path
    remote_key file_size d mp n len a x :
  EvUploadPart mp n len a x ∈
    trace (multipart_upload_with_resume w bucket_name local_path remote_key
             file_size d) →
  (∃ l l1 l2,
     ks3_get_all_multipart_uploads w remote_key = Ok l ∧
     l = l1 ++ mp :: l2 ∧
     ∀ y, y ∈ l1 → s_id y ≠ s_id mp) ∧
  ((d !! resume_path local_path = None ∧
    ks3_initiate_multipart_upload w remote_key = Ok (s_id mp)) ∨
   (∃ f rd, d !! resume_path local_path = Some f ∧ f_json f = Some rd ∧
            upload_id rd = s_id mp)) ∧
  (∀ mp' n' len' a' x',
     EvUploadPart mp' n' len' a' x' ∈
       trace (multipart_upload_with_resume w bucket_name local_path remote_key
                file_size d) →
     mp' = mp).
Proof.
  intros Hin.
  pose proof (run_of_shape w bucket_name local_path remote_key file_size d) as Hs.
  cbn zeta in Hs.
  destruct (run_upload_session _ _ _ _ _ _ _ _ _ _ _ _ _ _ Hs Hin)
    as (rd & d1 & t1 & l & Hst & Hl & Hfind).
  pose proof Hfind as Hfind'. unfold find_by_id in Hfind'.
  apply find_first in Hfind' as (l1 & l2 & -> & Hid & Hl1).
  apply String.eqb_eq in Hid.
  split_and!.
  - exists (l1 ++ mp :: l2), l1, l2. split_and!; [done|done|].
    intros y Hy. apply Hl1 in Hy. rewrite Hid.
    by apply String.eqb_neq.
  - rewrite Hid. destruct (started_upload_id _ _ _ _ _ _ _ Hst) as [?|(f & ? & ?)];
      [by left|right; eauto].
  - intros mp' n' len' a' x' Hin'.
    destruct (run_upload_session _ _ _ _ _ _ _ _ _ _ _ _ _ _ Hs Hin')
      as (rd' & d1' & t1' & l' & Hst' & Hl' & Hfind').
    assert (upload_id rd' = upload_id rd) as Hu.
    { destruct Hst as [uid Hd Hi|f rd0 Hd Hj];
        destruct Hst' as [uid' Hd' Hi'|f' rd0' Hd' Hj']; simpl; congruence. }
    congruence.
Qed.

Lemma attempts_at_app n t1 t2 :
  attempts_at n (t1 ++ t2) = (attempts_at n t1 + attempts_at n t2)%nat.
Proof. unfold attempts_at. by rewrite uploads_app, filter_app, length_app. Qed.

Lemma attempts_at_none n t : n ∉ uploads t → attempts_at n t = 0%nat.
Proof.
  unfold attempts_at. induction (uploads t) as [|m l IH]; [done|].
  rewrite not_elem_of_cons. intros [Hm Hl].
  rewrite filter_cons_False by congruence. auto.
Qed.

Lemma attempts_at_le n t : (attempts_at n t ≤ length (uploads t))%nat.
Proof. unfold attempts_at. apply length_filter. Qed.

Section LoopBounds.
Context (w : world) (mp : session) (rpath : string).
Context (file_size flen : Z) (up : dict).

Local Abbreviation shape := (loop_shape w mp rpath file_size flen up).

Lemma loop_attempts_bound idx st d r d' t n :
  shape idx st d r d' t → NoDup idx → (attempts_at n t ≤ 3)%nat.
Proof.
  induction 1 as [st d|i idx st d r d' t Hmem _ IH
                 |i idx st d r d' t es hdr st1 Hmem Hlen Hf Hok -> Hrest IH
                 |i idx st d es Hmem Hlen Hf]; intros Hnd.
  - unfold attempts_at. simpl. lia.
  - apply IH. by inversion Hnd.
  - inversion Hnd as [|? ? Hni Hnd']; subst.
    rewrite app_assoc, attempts_at_app.
    destruct (decide (n ∈ uploads t)) as [Hin|Hnin].
    + rewrite attempts_at_none; [by apply IH|].
      rewrite uploads_app, uploads_failed_attempts. simpl.
      eapply loop_upload_in in Hin as [Hin _]; [|exact Hrest].
      rewrite elem_of_app, list_elem_of_singleton.
      intros [->%elem_of_replicate_inv| ->];
        apply Hni; by replace (i + 1 - 1) with i in Hin by lia.
    + rewrite (attempts_at_none n t) by done.
      match goal with
      | |- (attempts_at n ?x + _ ≤ _)%nat =>
          pose proof (attempts_at_le n x) as Hle
      end.
      rewrite uploads_app, uploads_failed_attempts, length_app,
        length_replicate in Hle.
      change (uploads (acked_attempt _ _ ?m _ _ _ _)) with [m] in Hle.
      cbn [length] in Hle. lia.
  - match goal with
    | |- (attempts_at n ?x ≤ _)%nat => pose proof (attempts_at_le n x) as Hle
    end.
    rewrite uploads_app, uploads_failed_attempts, length_app,
      length_replicate in Hle.
    change (uploads [EvPrint _; EvCancel _ _]) with (@nil Z) in Hle.
    cbn [length] in Hle. lia.
Qed.

Lemma failed_attempts_sleep n len es s :
  (length es ≤ 3)%nat →
  EvSleep s ∈ failed_attempts mp n len 0 es → s = 1 ∨ s = 2 ∨ s = 4.
Proof.
  intros Hlen (j & e & Hj & Hin)%elem_of_failed_attempts.
  apply lookup_lt_Some in Hj. unfold failed_attempt in Hin.
  rewrite !elem_of_cons, elem_of_nil in Hin.
  destruct Hin as [[=]|[[=]|[[= ->]|[]]]].
  destruct j as [|[|[|j]]]; [tauto|tauto|tauto|lia].
Qed.

Lemma loop_sleeps idx st d r d' t s :
  shape idx st d r d' t → EvSleep s ∈ t → s = 1 ∨ s = 2 ∨ s = 4.
Proof.
  induction 1 as [st d|i idx st d r d' t Hmem _ IH
                 |i idx st d r d' t es hdr st1 Hmem Hlen Hf Hok -> Hrest IH
                 |i idx st d es Hmem Hlen Hf]; intros Hin.
  - by apply elem_of_nil in Hin.
  - auto.
  - rewrite !elem_of_app in Hin. destruct Hin as [Hin|[Hin|Hin]]; [| |auto].
    + eapply failed_attempts_sleep; [|exact Hin]. lia.
    + unfold acked_attempt in Hin. rewrite !elem_of_cons, elem_of_nil in Hin.
      destruct Hin as [[=]|[[=]|[[=]|[]]]].
  - rewrite elem_of_app in Hin. destruct Hin as [Hin|Hin].
    + eapply failed_attempts_sleep; [|exact Hin]. lia.
    + rewrite !elem_of_cons, elem_of_nil in Hin. destruct Hin as [[=]|[[=]|[]]].
Qed.

Lemma failed_attempts_kind ev n len a es :
  ev ∈ failed_attempts mp n len a es →
  (∃ a' e, ev = EvUploadPart mp n len a' (Raise e)) ∨
  (∃ k e, ev = EvPrint (MsgPartRetry n k e)) ∨
  (∃ s, ev = EvSleep s).
Proof.
  intros (j & e & _ & Hin)%elem_of_failed_attempts.
  unfold failed_attempt in Hin. rewrite !elem_of_cons, elem_of_nil in Hin.
  destruct Hin as [->|[->|[->|[]]]]; eauto 6.
Qed.

(** A loop that runs to its end has given up on nothing. *)
Lemma loop_completed_clean idx st d r d' t st' :
  shape idx st d r d' t → r = Ok (Some st') →
  (∀ m x, EvCancel m x ∉ t) ∧ (∀ n, EvPrint (MsgPartGiveUp n) ∉ t).
Proof.
  induction 1 as [st d|i idx st d r d' t Hmem _ IH
                 |i idx st d r d' t es hdr st1 Hmem Hlen Hf Hok -> Hrest IH
                 |i idx st d es Hmem Hlen Hf]; intros Hr.
  - split; intros; apply not_elem_of_nil.
  - auto.
  - destruct (IH Hr) as [IH1 IH2].
    split.
    + intros m x Hin. rewrite !elem_of_app in Hin.
      destruct Hin as [Hin|[Hin|Hin]]; [| |by eapply IH1].
      * apply failed_attempts_kind in Hin as [(?&?&?)|[(?&?&?)|(?&?)]]; done.
      * unfold acked_attempt in Hin. rewrite !elem_of_cons, elem_of_nil in Hin.
        destruct Hin as [?|[?|[?|[]]]]; done.
    + intros n Hin. rewrite !elem_of_app in Hin.
      destruct Hin as [Hin|[Hin|Hin]]; [| |by eapply IH2].
      * apply failed_attempts_kind in Hin as [(?&?&?)|[(?&?&?)|(?&?)]]; done.
      * unfold acked_attempt in Hin. rewrite !elem_of_cons, elem_of_nil in Hin.
        destruct Hin as [?|[?|[?|[]]]]; done.
  - destruct (ks3_cancel_upload w mp); done.
Qed.
End LoopBounds.

(** X10. Retrying is bounded: in a run a part is sent at most three times,
    the attempts being numbered 0, 1 and 2, and every sleep lasts 1, 2 or 4
    seconds. *)
Theorem at_most_three_attempts_per_part w bucket_name local_path remote_key
    file_size d :
  let run := multipart_upload_with_resume w bucket_name local_path remote_key
               file_size d in
  (∀ n, (attempts_at n (trace run) ≤ 3)%nat) ∧
  (∀ mp n len a x, EvUploadPart mp n len a x ∈ trace run → (a < 3)%nat) ∧
  (∀ s, EvSleep s ∈ trace run → s = 1 ∨ s = 2 ∨ s = 4).
Proof.
  intros run.
  pose proof (run_of_shape w bucket_name local_path remote_key file_size d) as Hs.
  cbn zeta in Hs. fold run in Hs.
  apply run_shape_inv in Hs as [(Hst & _)|Hs].
  { pose proof Hst as Hst'. rewrite Forall_forall in Hst'.
    split_and!.
    - intros n. apply start_only_observed in Hst as (Hu & _).
      unfold attempts_at. rewrite Hu. simpl. lia.
    - intros mp n len a x Hin. by apply Hst' in Hin.
    - intros s Hin. by apply Hst' in Hin. }
  destruct Hs as (rd & d1 & t1 & l & mp0 & f & rL & dL & tL & tF
                  & Hs & Hl & Hfind & Hlp & HL & HF & Ht).
  rewrite Ht. split_and!.
  - intros n. edestruct run_observed as (_ & Hu & _); [exact Hs|exact HF|].
    cbn zeta in Hu. unfold attempts_at. rewrite Hu.
    eapply loop_attempts_bound; [exact HL|apply range_NoDup].
  - intros mp n len a x Hin.
    eapply run_loop_event in Hin; [|exact Hs|exact HF|by intros []].
    apply loop_events in HL. rewrite Forall_forall in HL. apply HL in Hin.
    simpl in Hin. tauto.
  - intros s Hin.
    eapply run_loop_event in Hin; [|exact Hs|exact HF|by intros []].
    eapply loop_sleeps; [exact HL|exact Hin].
Qed.

Lemma data_len_bounds file_size flen i :
  0 ≤ i < part_count file_size →
  0 ≤ data_len file_size flen i ≤ part_len file_size i ∧
  part_len file_size i ≤ part_size.
Proof.
  intros Hi. pose proof (part_len_in_file file_size i Hi) as Hp.
  unfold data_len, read_len.
  destruct (Z.ltb_spec (part_len file_size i) 0); [lia|].
  unfold part_len in *. lia.
Qed.

(** X11. Whatever the size of the file on the disk, a part sent is never
    longer than planned: its number is one of [1..part_count] and its
    length lies between 0 and [min(part_size, file_size - offset)], hence
    within 50 MiB; it is exactly the length read at its offset in the
    file. *)
Theorem part_length_within_plan w bucket_name local_path remote_key file_size d
    mp n len a x :
  EvUploadPart mp n len a x ∈
    trace (multipart_upload_with_resume w bucket_name local_path remote_key
             file_size d) →
  1 ≤ n ≤ part_count file_size ∧
  0 ≤ len ≤ Z.min part_size (file_size - (n - 1) * part_size) ∧
  len ≤ 52428800 ∧
  ∃ f, d !! local_path = Some f ∧
       len = read_len (f_len f) ((n - 1) * part_size)
               (Z.min part_size (file_size - (n - 1) * part_size)).
Proof.
  intros Hin.
  pose proof (run_of_shape w bucket_name local_path remote_key file_size d) as Hs.
  cbn zeta in Hs. apply run_shape_inv in Hs as [(Hst & _)|Hs].
  { rewrite Forall_forall in Hst. by apply Hst in Hin. }
  destruct Hs as (rd & d1 & t1 & l & mp0 & f & rL & dL & tL & tF
                  & Hs & Hl & Hfind & Hlp & HL & HF & Ht).
  rewrite Ht in Hin.
  eapply run_loop_event in Hin; [|exact Hs|exact HF|by intros []].
  apply loop_events in HL. rewrite Forall_forall in HL. apply HL in Hin.
  simpl in Hin. destruct Hin as (_ & Hi%elem_of_range & Hlen & _).
  destruct (data_len_bounds file_size (f_len f) (n - 1) Hi) as [Hb Hps].
  rewrite <- Hlen in Hb.
  edestruct started_facts as (_ & Hd1 & _); [exact Hs|].
  rewrite Hd1 in Hlp by (apply not_eq_sym, resume_path_neq).
  split_and!; [lia|lia|..].
  - lia.
  - unfold part_len, part_offset, part_size in *. lia.
  - unfold part_len, part_offset, part_size in *. lia.
  - exists f. split; [done|]. exact Hlen.
Qed.





Lemma run_initiate w bucket_name local_path remote_key file_size d r d' t k x :
  run_shape w bucket_name local_path remote_key file_size d r d' t →
  EvInitiate k x ∈ t →
  d !! resume_path local_path = None ∧
  k = remote_key ∧ x = ks3_initiate_multipart_upload w remote_key ∧
  ∃ t', t = EvInitiate k x :: t' ∧ ∀ k' x', EvInitiate k' x' ∉ t'.
Proof.
  intros Hrun Hin.
  assert (∀ rd d1 t1 tail, started w local_path remote_key d rd d1 t1 →
            EvInitiate k x ∈ t1 ++ tail →
            (∀ k' x', EvInitiate k' x' ∉ tail) →
            d !! resume_path local_path = None ∧
            k = remote_key ∧ x = ks3_initiate_multipart_upload w remote_key ∧
            ∃ t', t1 ++ tail = EvInitiate k x :: t' ∧
                  ∀ k' x', EvInitiate k' x' ∉ t') as Hcase.
  { intros rd d1 t1 tail [uid Hd Hi|f rd' Hd Hj] Hin' Htail.
    - simpl in Hin'. rewrite !elem_of_cons in Hin'.
      destruct Hin' as [[= -> ->]|[?|Hin']]; [|done|by destruct (Htail k x)].
      split_and!; try done. eexists. split; [done|].
      intros k' x'. rewrite elem_of_cons. intros [?|?]; [done|].
      by eapply Htail.
    - simpl in Hin'. rewrite elem_of_cons in Hin'.
      destruct Hin' as [?|Hin']; [done|]. by destruct (Htail k x). }
  destruct Hrun as [f Hd Hj|e Hd Hi|rd d1 t1 e Hs Hl|rd d1 t1 l Hs Hl Hfind
         |rd d1 t1 l mp Hs Hl Hfind Hlp
         |rd d1 t1 l mp f rL dL tL r0 d0 tF Hs Hl Hfind Hlp HL HF].
  - by apply elem_of_nil in Hin.
  - apply list_elem_of_singleton in Hin as [= -> ->].
    split_and!; try done. exists []. split; [done|].
    intros ? ?. apply not_elem_of_nil.
  - eapply Hcase; [exact Hs|exact Hin|].
    intros k' x' Hin'. rewrite ?elem_of_cons, ?elem_of_nil in Hin'.
    repeat (destruct Hin' as [Hin'|Hin']; try done); try tauto.
  - eapply Hcase; [exact Hs|exact Hin|].
    intros k' x' Hin'. rewrite ?elem_of_cons, ?elem_of_nil in Hin'.
    repeat (destruct Hin' as [Hin'|Hin']; try done); try tauto.
  - eapply Hcase; [exact Hs|exact Hin|].
    intros k' x' Hin'. rewrite ?elem_of_cons, ?elem_of_nil in Hin'.
    repeat (destruct Hin' as [Hin'|Hin']; try done); try tauto.
  - eapply Hcase; [exact Hs|exact Hin|].
    intros k' x' Hin'.
    change (EvInitiate k' x' ∈ [] ++ [EvListUploads remote_key (Ok l);
              EvProgress (sum_list (size <$> dict_values
                            (uploaded_parts_of (parts rd))))] ++ tL ++ tF)
      in Hin'.
    apply elem_of_run in Hin' as [Hin'|[?|[?|[Hin'|Hin']]]]; try done.
    + by apply elem_of_nil in Hin'.
    + apply loop_events in HL. rewrite Forall_forall in HL. by apply HL in Hin'.
    + destruct HF; rewrite ?elem_of_cons, ?elem_of_nil in Hin';
        repeat (destruct Hin' as [Hin'|Hin']; try done); try tauto.
Qed.

(** X13. A session is initiated only when there is no resume record on
    the disk, for the remote key given, as the first thing the run does,
    and at most once in a run: while a record exists no new session is ever
    created. *)
Theorem session_initiated_only_without_record w bucket_name local_path
    remote_key file_size d k x :
  let run := multipart_upload_with_resume w bucket_name local_path remote_key
               file_size d in
  EvInitiate k x ∈ trace run →
  d !! resume_path local_path = None ∧
  k = remote_key ∧ x = ks3_initiate_multipart_upload w remote_key ∧
  ∃ t', trace run = EvInitiate k x :: t' ∧ ∀ k' x', EvInitiate k' x' ∉ t'.
Proof.
  intros run. eapply run_initiate. apply run_of_shape.
Qed.

Lemma run_complete_requested w bucket_name local_path remote_key file_size
    d r d' t mp x :
  run_shape w bucket_name local_path remote_key file_size d r d' t →
  EvComplete mp x ∈ t →
  x = ks3_complete_upload w mp ∧
  (∀ n, 1 ≤ n ≤ part_count file_size →
     n ∈ part_num <$> (recorded_parts d (resume_path local_path) ++ acks t)) ∧
  (∀ m y, EvCancel m y ∉ t) ∧
  (∀ n, EvPrint (MsgPartGiveUp n) ∉ t) ∧
  ∃ t0 tail, t = t0 ++ EvComplete mp x :: tail ∧
             (∀ m y, EvComplete m y ∉ t0) ∧ (∀ m y, EvComplete m y ∉ tail) ∧
             (∀ m n len a y, EvUploadPart m n len a y ∉ tail).
Proof.
  intros [(Hst & _)|Hs]%run_shape_inv Hin.
  { rewrite Forall_forall in Hst. by apply Hst in Hin. }
  destruct Hs as (rd & d1 & t1 & l & mp0 & f & rL & dL & tL & tF
                  & Hs & Hl & Hfind & Hlp & HL & HF & ->).
  edestruct started_facts as (Hrd & _ & _ & Ht1 & _); [exact Hs|].
  edestruct run_observed as (Ha & _); [exact Hs|exact HF|].
  cbn zeta in Ha. rewrite Ha.
  pose proof (loop_events _ _ _ _ _ _ _ _ _ _ _ _ HL) as Hev.
  rewrite Forall_forall in Ht1, Hev.
  assert (∀ ev, ¬ start_event ev → ¬ (∃ a b, ev = EvListUploads a b) →
            ¬ (∃ k, ev = EvProgress k) →
            (∀ m up flen idx,
               ¬ loop_event w m (resume_path local_path) file_size flen up idx ev) →
            ev ∉ t1 ++ [EvListUploads remote_key (Ok l);
                   EvProgress (sum_list (size <$> dict_values
                                 (uploaded_parts_of (parts rd))))] ++ tL)
    as Hfront.
  { intros ev H1 H2 H3 H4. rewrite !elem_of_app, !elem_of_cons, elem_of_nil.
    intros [Hq|[[->|[->|[]]]|Hq]].
    - by apply H1, Ht1.
    - apply H2. eauto.
    - apply H3. eauto.
    - eapply H4, Hev, Hq. }
  assert (EvComplete mp x ∈ tF) as HinF.
  { apply elem_of_run in Hin as [Hin|[?|[?|[Hin|Hin]]]]; try done.
    - by apply Ht1 in Hin.
    - by apply Hev in Hin. }
  assert (∃ st, rL = Ok (Some st) ∧ mp = mp0 ∧ x = ks3_complete_upload w mp0 ∧
            ∃ rest, tF = EvComplete mp x :: rest ∧
              (∀ m y, EvComplete m y ∉ rest) ∧
              (∀ m n len a y, EvUploadPart m n len a y ∉ rest) ∧
              (∀ m y, EvCancel m y ∉ tF) ∧
              (∀ n, EvPrint (MsgPartGiveUp n) ∉ tF)) as
    (st & -> & -> & -> & rest & HtF & Hrest1 & Hrest2 & HcF & HgF).
  { destruct HF as [e dL0|dL0|st dL0 e Hc|st dL0 Hc Hd];
      rewrite ?elem_of_cons, ?elem_of_nil in HinF;
      repeat (destruct HinF as [HinF|HinF]; try done); try tauto;
      simplify_eq; exists st; (split_and!; [done|done|by rewrite Hc|]);
      eexists; (split_and!; [done|..]); intros;
      rewrite ?elem_of_cons, ?elem_of_nil; intuition discriminate. }
  destruct (loop_completed_clean _ _ _ _ _ _ _ _ _ _ _ _ _ HL eq_refl)
    as [HcL HgL].
  pose proof (loop_acks _ _ _ _ _ _ _ _ _ _ _ _ HL) as [_ Hall].
  cbn zeta in Hall.
  split_and!.
  - done.
  - intros n Hn. rewrite fmap_app, elem_of_app.
    rewrite (Hall st eq_refl), <- Hrd.
    destruct (dict_mem n (uploaded_parts_of (parts rd))) eqn:Hmem.
    + left. apply dec_stable. intros Hnot.
      apply dict_mem_uploaded_parts in Hnot. congruence.
    + right. apply list_elem_of_filter. split; [done|].
      apply list_elem_of_fmap. exists (n - 1). split; [lia|].
      apply elem_of_range. lia.
  - intros m y Hc. apply elem_of_run in Hc as [Hc|[?|[?|[Hc|Hc]]]]; try done.
    + by apply Ht1 in Hc.
    + by eapply HcL.
    + by eapply HcF.
  - intros n Hc. apply elem_of_run in Hc as [Hc|[?|[?|[Hc|Hc]]]]; try done.
    + by apply Ht1 in Hc.
    + by eapply HgL.
    + by eapply HgF.
  - exists (t1 ++ [EvListUploads remote_key (Ok l);
              EvProgress (sum_list (size <$> dict_values
                            (uploaded_parts_of (parts rd))))] ++ tL), rest.
    rewrite HtF. split_and!; [by rewrite <- !app_assoc| |done|done].
    intros m y. apply Hfront;
      [by intros []|by intros (? & ? & ?)|by intros (? & ?)
      |by intros ? ? ? ? []].
Qed.

(** X14. [complete_upload] is requested only when every part of
    [1..part_count] has a record, loaded or acknowledged in the run, whether
    or not the request then succeeds.  It is requested at most once, never
    in a run that aborted or gave up on a part, and no part is uploaded after
    it. *)
Theorem completion_requested_only_when_all_parts_recorded w bucket_name
    local_path remote_key file_size d mp x :
  let run := multipart_upload_with_resume w bucket_name local_path remote_key
               file_size d in
  EvComplete mp x ∈ trace run →
  x = ks3_complete_upload w mp ∧
  (∀ n, 1 ≤ n ≤ part_count file_size →
     n ∈ part_num <$> (recorded_parts d (resume_path local_path)
                         ++ acks (trace run))) ∧
  (∀ m y, EvCancel m y ∉ trace run) ∧
  (∀ n, EvPrint (MsgPartGiveUp n) ∉ trace run) ∧
  ∃ t0 tail, trace run = t0 ++ EvComplete mp x :: tail ∧
             (∀ m y, EvComplete m y ∉ t0) ∧ (∀ m y, EvComplete m y ∉ tail) ∧
             (∀ m n len a y, EvUploadPart m n len a y ∉ tail).
Proof.
  intros run. eapply run_complete_requested. apply run_of_shape.
Qed.

Lemma loop_gave_up w mp rpath file_size flen up idx st d r d' t :
  loop_shape w mp rpath file_size flen up idx st d r d' t →
  r = Ok None →
  NoDup idx →
  ∃ n t0 es,
    t = t0 ++ failed_attempts mp n (data_len file_size flen (n - 1)) 0 es
           ++ [EvPrint (MsgPartGiveUp n); EvCancel mp (Ok tt)] ∧
    length es = 3%nat ∧ n ∉ uploads t0.
Proof.
  induction 1 as [st d|i idx st d r d' t Hmem _ IH
                 |i idx st d r d' t es hdr st1 Hmem Hlen Hf Hok -> Hrest IH
                 |i idx st d es Hmem Hlen Hf]; intros Hr Hnd.
  - discriminate.
  - (apply IH; [done|by inversion Hnd]).
  - inversion Hnd as [|? ? Hni Hnd']; subst.
    destruct (IH eq_refl Hnd') as (n & t0 & es' & -> & Hes' & Hn0).
    exists n,
      (failed_attempts mp (i + 1) (data_len file_size flen i) 0 es
         ++ acked_attempt mp rpath (i + 1) (data_len file_size flen i)
              (length es) hdr
              (l_resume_data
                 (append_part (record_of (i + 1) (data_len file_size flen i) hdr) st))
         ++ t0), es'.
    split; [by rewrite <- !app_assoc|]. split; [exact Hes'|].
    assert (n - 1 ∈ idx) as Hn.
    { eapply loop_upload_in; [exact Hrest|]. rewrite !uploads_app.
      rewrite uploads_failed_attempts, Hes'. simpl.
      rewrite !elem_of_app, ?elem_of_cons. naive_solver. }
    rewrite !uploads_app, uploads_failed_attempts. simpl.
    rewrite !elem_of_app, elem_of_cons.
    intros [->%elem_of_replicate_inv|[->|?]]; try done;
      apply Hni; by replace (i + 1 - 1) with i in Hn by lia.
  - destruct (ks3_cancel_upload w mp) as [[]|e] eqn:Hc; [|done].
    exists (i + 1), [], es. replace (i + 1 - 1) with i by lia.
    split_and!; [done|done|apply not_elem_of_nil].
Qed.


Lemma run_none_announced w bucket_name local_path remote_key file_size
    d r d' t :
  run_shape w bucket_name local_path remote_key file_size d r d' t →
  r = Ok None →
  (last t = Some (EvPrint MsgSessionNotFound) ∧ uploads t = []) ∨
  (∃ n mp, last t = Some (EvCancel mp (Ok tt)) ∧
           EvPrint (MsgPartGiveUp n) ∈ t ∧ (attempts_at n t = 3)%nat).
Proof.
  intros Hrun Hr.
  destruct Hrun as [f Hd Hj|e Hd Hi|rd d1 t1 e Hs Hl|rd d1 t1 l Hs Hl Hfind
         |rd d1 t1 l mp Hs Hl Hfind Hlp
         |rd d1 t1 l mp f rL dL tL r0 d0 tF Hs Hl Hfind Hlp HL HF]; try done.
  - left. edestruct started_facts as (_ & _ & _ & _ & _ & Hu & _); [exact Hs|].
    split.
    + change [EvListUploads remote_key (Ok l); EvPrint MsgSessionNotFound]
        with ([EvListUploads remote_key (Ok l)] ++ [EvPrint MsgSessionNotFound]).
      rewrite app_assoc. apply last_snoc.
    + rewrite uploads_app, Hu. done.
  - right. subst r0.
    assert (rL = Ok None ∧ tF = []) as [-> ->] by (by inversion HF).
    edestruct run_observed as (_ & Hu & _); [exact Hs|exact HF|].
    cbn zeta in Hu.
    destruct (loop_gave_up _ _ _ _ _ _ _ _ _ _ _ _ HL eq_refl (range_NoDup _))
      as (n & t0 & es & HtL & Hes & Hn0).
    exists n, mp. split_and!.
    + rewrite app_nil_r, HtL.
      change [EvPrint (MsgPartGiveUp n); EvCancel mp (Ok tt)]
        with ([EvPrint (MsgPartGiveUp n)] ++ [EvCancel mp (Ok tt)]).
      rewrite !app_assoc. apply last_snoc.
    + apply elem_of_run. right; right; right; left. rewrite HtL.
      rewrite !elem_of_app, !elem_of_cons. tauto.
    + unfold attempts_at. rewrite Hu. fold (attempts_at n tL). rewrite HtL.
      rewrite !attempts_at_app, attempts_at_none by done.
      unfold attempts_at. rewrite uploads_failed_attempts, Hes. simpl.
      rewrite !filter_cons_True by done. done.
Qed.

(** X15. [None] is never returned silently.  A run of
    [multipart_upload_with_resume] that returns [None] either ends on the
    session-not-found line, having uploaded nothing, or ends on the abort
    of the session right after giving up on a part that was sent three
    times. *)
Theorem none_is_returned_after_its_reason w bucket_name local_path remote_key
    file_size d :
  let run := multipart_upload_with_resume w bucket_name local_path remote_key
               file_size d in
  outcome run = Ok None →
  (last (trace run) = Some (EvPrint MsgSessionNotFound) ∧
   uploads (trace run) = []) ∨
  (∃ n mp, last (trace run) = Some (EvCancel mp (Ok tt)) ∧
           EvPrint (MsgPartGiveUp n) ∈ trace run ∧
           (attempts_at n (trace run) = 3)%nat).
Proof.
  intros run. eapply run_none_announced. apply run_of_shape.
Qed.




(** ** The dictionary of recorded parts *)

Lemma dict_mem_keys k (d : dict) : dict_mem k d = true ↔ k ∈ d.*1.
Proof.
  unfold dict_mem. rewrite existsb_exists, list_elem_of_fmap. split.
  - intros ([k' v] & Hin%list_elem_of_In & Hk%Z.eqb_eq). exists (k', v).
    simpl in *. by subst.
  - intros ([k' v] & -> & Hin). exists (k', v). split; [by apply list_elem_of_In|].
    apply Z.eqb_refl.
Qed.

Lemma dict_set_fresh k v (d : dict) :
  dict_mem k d = false → dict_set k v d = d ++ [(k, v)].
Proof.
  induction d as [|[k' v'] d IH]; simpl; [done|].
  destruct (Z.eqb_spec k' k); simpl; [done|]. intros Hd. by rewrite IH.
Qed.

Lemma dict_set_keys k v (d : dict) :
  (dict_set k v d).*1 = if dict_mem k d then d.*1 else d.*1 ++ [k].
Proof.
  induction d as [|[k' v'] d IH]; [done|].
  cbn [dict_set]. unfold dict_mem. cbn [existsb fst]. fold (dict_mem k d).
  destruct (Z.eqb_spec k' k) as [->|Hne]; cbn [orb].
  - done.
  - rewrite !fmap_cons, IH. by destruct (dict_mem k d).
Qed.

Lemma dict_set_elem k v (d : dict) k' v' :
  NoDup d.*1 →
  (k', v') ∈ dict_set k v d ↔ (k' = k ∧ v' = v) ∨ (k' ≠ k ∧ (k', v') ∈ d).
Proof.
  induction d as [|[k0 v0] d IH]; simpl; intros Hnd.
  - rewrite list_elem_of_singleton, elem_of_nil. split.
    + intros [= -> ->]. by left.
    + intros [[-> ->]|[_ []]]. done.
  - inversion Hnd as [|? ? Hni Hnd']; subst.
    destruct (Z.eqb_spec k0 k) as [->|Hne].
    + rewrite !elem_of_cons. split.
      * intros [[= -> ->]|Hin]; [by left|]. right. split; [|by right].
        intros ->. apply Hni. apply list_elem_of_fmap. by exists (k, v').
      * intros [[-> ->]|[Hk [[= -> _]|Hin]]]; [by left|done|by right].
    + rewrite !elem_of_cons, IH by done. split.
      * intros [[= -> ->]|[?|[? ?]]]; [right; split; [done|by left]|by left|].
        right. split; [done|by right].
      * intros [?|[Hk [[= -> ->]|Hin]]]; [right; by left|by left|].
        right. right. done.
Qed.

Lemma uploaded_parts_snoc ps p :
  uploaded_parts_of (ps ++ [p])
    = dict_set (part_num p) p (uploaded_parts_of ps).
Proof. unfold uploaded_parts_of. by rewrite foldl_app. Qed.

Lemma uploaded_parts_inv ps :
  NoDup (uploaded_parts_of ps).*1 ∧
  ∀ k v, (k, v) ∈ uploaded_parts_of ps ↔
         last (filter (λ p, part_num p = k) ps) = Some v.
Proof.
  induction ps as [|p ps [IH1 IH2]] using rev_ind.
  - split; [constructor|]. intros k v. simpl. rewrite elem_of_nil. done.
  - rewrite uploaded_parts_snoc. split.
    + rewrite dict_set_keys.
      destruct (dict_mem (part_num p) (uploaded_parts_of ps)) eqn:Hmem; [done|].
      apply NoDup_app. split_and!; [done| |apply NoDup_singleton].
      intros k Hk ->%list_elem_of_singleton.
      apply dict_mem_keys in Hk. congruence.
    + intros k v. rewrite dict_set_elem, filter_app by done.
      destruct (decide (part_num p = k)) as [<-|Hne].
      * rewrite filter_cons_True by done. rewrite filter_nil, last_snoc.
        split; [intros [[_ ->]|[? _]]; done|intros [= ->]; by left].
      * rewrite filter_cons_False by done. rewrite filter_nil, app_nil_r, <- IH2.
        split; [intros [[-> _]|[_ ?]]; done|intros ?; right; by split].
Qed.

(** X17. [uploaded_parts], the dictionary built from a resume record, has
    one entry per part number of the record; when the record lists a part
    more than once the last of its entries is the one kept.  When no part
    is listed twice the values of the dictionary are the record's parts, in
    order, and so is the [parts] list that the loop starts from. *)
Theorem uploaded_parts_keeps_last_record_per_part (ps : list part_record) :
  let uploaded_parts := uploaded_parts_of ps in
  NoDup uploaded_parts.*1 ∧
  (∀ k, dict_mem k uploaded_parts = true ↔ k ∈ part_num <$> ps) ∧
  (∀ k v, (k, v) ∈ uploaded_parts ↔
          last (filter (λ p, part_num p = k) ps) = Some v) ∧
  (∀ v, v ∈ dict_values uploaded_parts → v ∈ ps) ∧
  (length (dict_values uploaded_parts) ≤ length ps)%nat ∧
  (NoDup (part_num <$> ps) → dict_values uploaded_parts = ps).
Proof.
  intros up. subst up. destruct (uploaded_parts_inv ps) as [Hnd Hel].
  split_and!; try done.
  - intros k. unfold uploaded_parts_of. rewrite dict_mem_foldl. simpl.
    intuition congruence.
  - intros v ([k v'] & -> & Hin)%list_elem_of_fmap. apply Hel in Hin.
    apply last_Some in Hin as (l' & Hl').
    assert (v' ∈ filter (λ p, part_num p = k) ps) as Hv
      by (rewrite Hl'; apply elem_of_app; right; by left).
    by apply list_elem_of_filter in Hv as [_ ?].
  - unfold dict_values. rewrite length_fmap.
    induction ps as [|p ps IH] using rev_ind; [done|].
    rewrite uploaded_parts_snoc, length_app. simpl.
    assert (length (dict_set (part_num p) p (uploaded_parts_of ps))
            ≤ S (length (uploaded_parts_of ps)))%nat as Hle.
    { rewrite <- (length_fmap fst (dict_set _ _ _)), dict_set_keys.
      destruct (dict_mem _ _); rewrite ?length_app, length_fmap; simpl; lia. }
    destruct (uploaded_parts_inv ps) as [Hnd' Hel'].
    specialize (IH Hnd' Hel'). lia.
  - clear Hnd Hel. induction ps as [|p ps IH] using rev_ind; [done|].
    rewrite fmap_app. intros [Hps [Hdisj _]]%NoDup_app.
    rewrite uploaded_parts_snoc, dict_set_fresh.
    + unfold dict_values in *. rewrite fmap_app, IH by done. done.
    + apply dict_mem_uploaded_parts. intros Hin. apply (Hdisj _ Hin).
      simpl. by left.
Qed.

(** ** [str.strip] and [os.path.basename] *)

Lemma append_nil_r (s : string) : s +:+ "" = s.
Proof. induction s as [|a s IH]; [done|]. by rewrite append_cons, IH. Qed.

Lemma rev_app_append (s1 s2 : string) :
  String.rev_app s1 s2 = String.rev s1 +:+ s2.
Proof.
  unfold String.rev. revert s2. induction s1 as [|a s1 IH]; intros s2; [done|].
  simpl. rewrite IH, (IH (String a "")), string_app_assoc. done.
Qed.

Lemma rev_cons a (s : string) : String.rev (String a s) = String.rev s +:+ String a "".
Proof. unfold String.rev at 1. simpl. apply rev_app_append. Qed.

Lemma rev_append (s1 s2 : string) :
  String.rev (s1 +:+ s2) = String.rev s2 +:+ String.rev s1.
Proof.
  induction s1 as [|a s1 IH].
  - rewrite append_nil. change (String.rev "") with "". by rewrite append_nil_r.
  - rewrite append_cons, !rev_cons, IH, string_app_assoc. done.
Qed.

Lemma rev_involutive (s : string) : String.rev (String.rev s) = s.
Proof.
  induction s as [|a s IH]; [done|].
  rewrite rev_cons, rev_append, IH. done.
Qed.

Lemma lstrip_starts c s : starts_with c (lstrip c s) = false.
Proof.
  induction s as [|a s IH]; simpl; [done|].
  destruct (Ascii.eqb a c) eqn:Ha; [done|]. simpl. done.
Qed.

Lemma lstrip_id c s : starts_with c s = false → lstrip c s = s.
Proof. destruct s as [|a s]; simpl; [done|]. by intros ->. Qed.

(** [lstrip] drops a run of [c] from the front. *)
Lemma lstrip_suffix c s :
  ∃ cs, s = cs +:+ lstrip c s ∧ lstrip c cs = "".
Proof.
  induction s as [|a s (cs & Hs & Hcs)]; simpl.
  - by exists "".
  - destruct (Ascii.eqb a c) eqn:Ha.
    + exists (String a cs). rewrite append_cons, <- Hs. split; [done|].
      simpl. by rewrite Ha.
    + by exists "".
Qed.

Lemma starts_with_append c (s1 s2 : string) :
  s1 ≠ "" → starts_with c (s1 +:+ s2) = starts_with c s1.
Proof. destruct s1; [done|]. intros _. by rewrite append_cons. Qed.

Lemma rstrip_prefix c s : ∃ cs, s = rstrip c s +:+ cs.
Proof.
  destruct (lstrip_suffix c (String.rev s)) as (cs & Hs & _).
  exists (String.rev cs). unfold rstrip.
  rewrite <- rev_append, <- Hs, rev_involutive. done.
Qed.

Lemma rstrip_ends c s : ends_with c (rstrip c s) = false.
Proof. unfold ends_with, rstrip. rewrite rev_involutive. apply lstrip_starts. Qed.

Lemma rstrip_id c s : ends_with c s = false → rstrip c s = s.
Proof.
  unfold ends_with, rstrip. intros H. by rewrite lstrip_id, rev_involutive.
Qed.

Lemma rstrip_starts c s : starts_with c s = false → starts_with c (rstrip c s) = false.
Proof.
  intros Hs. destruct (rstrip_prefix c s) as (cs & Heq).
  destruct (rstrip c s) as [|a r] eqn:Hr; [done|].
  rewrite Heq, append_cons in Hs. done.
Qed.

(** X18. The etag kept in a record is the [ETag] header with the double
    quotes around it removed: it neither begins nor ends with a quote, a
    header without quotes at its ends is kept as it is, stripping twice
    changes nothing more, and a reply without the header gives the empty
    etag. *)
Theorem etag_has_no_surrounding_quotes (n len : Z) (hdr : option string) :
  let e := etag (record_of n len hdr) in
  e = strip dquote (default "" hdr) ∧
  starts_with dquote e = false ∧
  ends_with dquote e = false ∧
  strip dquote e = e ∧
  (∀ s, hdr = Some s → starts_with dquote s = false →
        ends_with dquote s = false → e = s) ∧
  (hdr = None → e = "") ∧
  (∀ s, hdr = Some s → ∃ l r, s = l +:+ e +:+ r ∧
        lstrip dquote l = "" ∧ lstrip dquote (String.rev r) = "").
Proof.
  intros e. subst e. simpl.
  assert (starts_with dquote (strip dquote (default "" hdr)) = false) as H1
    by (unfold strip; apply rstrip_starts, lstrip_starts).
  assert (ends_with dquote (strip dquote (default "" hdr)) = false) as H2
    by apply rstrip_ends.
  split_and!; try done.
  - unfold strip at 1. by rewrite (lstrip_id _ _ H1), (rstrip_id _ _ H2).
  - intros s -> Hs He. simpl. unfold strip. by rewrite (lstrip_id _ _ Hs), rstrip_id.
  - intros ->. done.
  - intros s ->. simpl. unfold strip.
    destruct (lstrip_suffix dquote s) as (l & Hl & Hlq).
    destruct (lstrip_suffix dquote (String.rev (lstrip dquote s)))
      as (r & Hr & Hrq).
    exists l, (String.rev r). rewrite rev_involutive. split_and!; [|done|done].
    rewrite Hl at 1. f_equal. unfold rstrip.
    rewrite <- rev_append, <- Hr, rev_involutive. done.
Qed.

Lemma rfind_neg c s : rfind c s = -1 → has_char c s = false.
Proof.
  induction s as [|a s IH]; simpl; [done|].
  pose proof (rfind_bounds c s) as Hb.
  destruct (Z.leb_spec 0 (rfind c s)); [lia|].
  destruct (Ascii.eqb a c); [done|]. intros _. apply IH. lia.
Qed.

Lemma basename_cons_found a p :
  0 ≤ rfind slash p → basename (String a p) = basename p.
Proof.
  intros H. unfold basename. cbn [rfind].
  destruct (Z.leb_spec 0 (rfind slash p)); [|lia].
  replace (Z.to_nat (rfind slash p + 1 + 1))
    with (S (Z.to_nat (rfind slash p + 1))) by lia.
  done.
Qed.

Lemma basename_split (p : string) :
  ∃ pre, p = pre +:+ basename p ∧ (pre = "" ∨ ∃ pre0, pre = pre0 +:+ "/").
Proof.
  induction p as [|a p (pre & Hp & Hpre)].
  - exists "". split; [done|by left].
  - pose proof (rfind_bounds slash p) as Hb.
    destruct (Z.leb_spec 0 (rfind slash p)) as [Hfound|Hnone].
    + rewrite basename_cons_found by done.
      exists (String a pre). rewrite append_cons, <- Hp. split; [done|].
      right. destruct Hpre as [->|(pre0 & ->)].
      * rewrite append_nil in Hp.
        assert (has_char slash p = false) as Hns
          by (rewrite Hp; apply basename_no_slash).
        apply rfind_none in Hns. lia.
      * exists (String a pre0). by rewrite append_cons.
    + assert (rfind slash p = -1) as Hr by lia.
      unfold basename. cbn [rfind]. rewrite Hr. simpl.
      destruct (Ascii.eqb a slash) eqn:Ha; simpl.
      * apply Ascii.eqb_eq in Ha as ->. exists "/". split; [done|].
        right. by exists "".
      * exists "". split; [done|by left].
Qed.

(** X19. [basename] splits a path at its last slash: the path is what
    comes before, empty or ending in a slash, followed by the base name,
    which has no slash.  So the base name of a path that ends in a slash is
    empty, such a path has the resume file [.resume_.json], and taking the
    base name twice changes nothing. *)
Theorem basename_is_what_follows_the_last_slash (p : string) :
  (∃ pre, p = pre +:+ basename p ∧
          (pre = "" ∨ ∃ pre0, pre = pre0 +:+ "/")) ∧
  has_char slash (basename p) = false ∧
  basename (basename p) = basename p ∧
  basename (p +:+ "/") = "" ∧
  resume_path (p +:+ "/") = ".resume_.json".
Proof.
  assert (basename (p +:+ "/") = "") as Hslash.
  { rewrite <- (append_nil_r (p +:+ "/")), string_app_assoc.
    by apply (basename_join p ""). }
  split_and!.
  - apply basename_split.
  - apply basename_no_slash.
  - apply basename_plain, basename_no_slash.
  - exact Hslash.
  - unfold resume_path. rewrite Hslash. done.
Qed.

(** ** A failed run followed by another run *)


(** * The properties on example runs *)

Module Witness.
Import Examples.

Ltac in_trace :=
  apply list_elem_of_In; vm_compute; repeat first [left; reflexivity | right].


(** Parts 1 and 2 of 4 recorded: parts 3 and 4 are sent. *)
Lemma recorded_parts_are_skipped_witness :
  let run := multipart_upload_with_resume (service accept (Ok tt) true) "bk"
               big key (200 * MiB) disk12 in
  part_count (200 * MiB) = 4 ∧
  part_num <$> recorded_parts disk12 (resume_path big) = [1; 2] ∧
  todo [1; 2] (200 * MiB) = [3; 4] ∧
  uploads (trace run) = [3; 4] ∧
  ∀ n, n ∈ uploads (trace run) → n = 3 ∨ n = 4.
Proof.
  intros run.
  destruct (recorded_parts_are_skipped (service accept (Ok tt) true) "bk"
              big key (200 * MiB) disk12)
    as (_ & _ & _ & _ & _ & _ & _ & H12).
  assert (part_num <$> recorded_parts disk12 (resume_path big) = [1; 2]) as Hrec
    by (vm_compute; reflexivity).
  rewrite Hrec in H12.
  destruct H12 as [Hpending Hup].
  - reflexivity.
  - intros n. rewrite !elem_of_cons, elem_of_nil. tauto.
  - split_and!; [reflexivity|exact Hrec|exact Hpending|vm_compute; reflexivity|exact Hup].
Defined.

(** A fresh upload of the 130 MiB file: the first acknowledgement. *)
Lemma ack_is_persisted_before_next_upload_witness :
  let t := trace (multipart_upload_with_resume (service accept (Ok tt) true)
                    "bk" big key (130 * MiB) disk0) in
  t = take 4 t ++ EvUploadPart mp1 1 (50 * MiB) 0 (Ok (Some "abc")) :: drop 5 t ∧
  ∃ rd post',
    drop 5 t = EvWrite (resume_path big) rd :: post' ∧
    parts rd = [PartRecord 1 "abc" (50 * MiB)].
Proof.
  intros t.
  assert (t = take 4 t ++ EvUploadPart mp1 1 (50 * MiB) 0 (Ok (Some "abc"))
                :: drop 5 t) as Ht by (vm_compute; reflexivity).
  split; [exact Ht|].
  destruct (ack_is_persisted_before_next_upload _ _ _ _ _ _ _ _ _ _ _ _ _ Ht)
    as (rd & post' & Hpost & Hparts & _).
  exists rd, post'. split; [exact Hpost|]. rewrite Hparts. vm_compute. reflexivity.
Defined.

(** The fresh upload completes: the record is gone, the address returned. *)
Lemma completion_removes_resume_record_witness :
  let run := multipart_upload_with_resume (service accept (Ok tt) true) "bk"
               big key (130 * MiB) disk0 in
  EvComplete mp1 (Ok tt) ∈ trace run ∧
  outcome run = Ok (Some "ks3://bk/backups/big.bin") ∧
  final_disk run !! resume_path big = None ∧
  EvPrint MsgResumeFound ∉
    trace (multipart_upload_with_resume (service broken (Ok tt) true) "bk" big
             "other/key" (130 * MiB) (final_disk run)).
Proof.
  intros run.
  assert (EvComplete mp1 (Ok tt) ∈ trace run) as Hin by in_trace.
  destruct (completion_removes_resume_record _ _ _ _ _ _ _ Hin)
    as (Hr & _ & _ & Hd & Hnext).
  split_and!; [exact Hin|exact Hr|exact Hd|].
  exact (proj2 (Hnext (service broken (Ok tt) true) "bk" "other/key" (130 * MiB))).
Defined.



(** The session is not listed, for a fresh upload and for a resumed one. *)
Lemma missing_session_stops_before_any_upload_witness :
  let w := service accept (Ok tt) false in
  (disk0 !! resume_path big = None ∧
   ks3_initiate_multipart_upload w key = Ok "uid-1") ∧
  (∃ f rd, disk12 !! resume_path big = Some f ∧ f_json f = Some rd ∧
           upload_id rd = "uid-1") ∧
  ks3_get_all_multipart_uploads w key = Ok [Session "other" "uid-0"] ∧
  (∀ x, x ∈ [Session "other" "uid-0"] → s_id x ≠ "uid-1") ∧
  outcome (multipart_upload_with_resume w "bk" big key (130 * MiB) disk0)
    = Ok None ∧
  outcome (multipart_upload_with_resume w "bk" big key (200 * MiB) disk12)
    = Ok None ∧
  uploads (trace (multipart_upload_with_resume w "bk" big key (200 * MiB) disk12))
    = [].
Proof.
  intros w.
  assert (disk0 !! resume_path big = None ∧
          ks3_initiate_multipart_upload w key = Ok "uid-1") as Hfresh
    by (split; reflexivity).
  assert (∃ f rd, disk12 !! resume_path big = Some f ∧ f_json f = Some rd ∧
                  upload_id rd = "uid-1") as Hresume
    by (exists (File 120 (Some record12)), record12; split_and!; reflexivity).
  assert (ks3_get_all_multipart_uploads w key = Ok [Session "other" "uid-0"])
    as Hl by reflexivity.
  assert (∀ x, x ∈ [Session "other" "uid-0"] → s_id x ≠ "uid-1") as Hno.
  { intros x Hx. apply list_elem_of_singleton in Hx. rewrite Hx. discriminate. }
  split; [exact Hfresh|]. split; [exact Hresume|]. split; [exact Hl|].
  split; [exact Hno|]. split; [|split].
  - exact (proj1 (missing_session_stops_before_any_upload w "bk" big key
                    (130 * MiB) disk0 "uid-1" _ (or_introl Hfresh) Hl Hno)).
  - exact (proj1 (missing_session_stops_before_any_upload w "bk" big key
                    (200 * MiB) disk12 "uid-1" _ (or_intror Hresume) Hl Hno)).
  - exact (proj1 (proj2 (missing_session_stops_before_any_upload w "bk" big key
                    (200 * MiB) disk12 "uid-1" _ (or_intror Hresume) Hl Hno))).
Defined.


(** Removing the record that exists, and once more. *)
Lemma delete_raises_on_absent_record_witness :
  let path := ".resume_big.bin.json" in
  is_Some (disk12 !! path) ∧
  os_remove path disk12 = (Ok tt, delete path disk12, [EvRemove path]) ∧
  delete path disk12 !! path = None ∧
  os_remove path (delete path disk12)
    = (Raise (FileNotFoundError path), delete path disk12, []).
Proof.
  intros path.
  assert (is_Some (disk12 !! path)) as Hsome by (eexists; reflexivity).
  assert (delete path disk12 !! path = None) as Hnone by apply lookup_delete_eq.
  split_and!; [exact Hsome| |exact Hnone|].
  - exact (proj1 (delete_raises_on_absent_record path disk12) Hsome).
  - exact (proj1 (proj2 (delete_raises_on_absent_record path (delete path disk12)))
             Hnone).
Defined.

(** The same base name under two directories, and another key. *)
Lemma resume_path_depends_on_basename_only_witness :
  has_char slash "big.bin" = false ∧
  resume_path "/data/big.bin" = ".resume_big.bin.json" ∧
  resume_path "/tmp/big.bin" = resume_path "/data/big.bin" ∧
  basename "/tmp/big.bin" = basename big ∧
  ∃ t', trace (multipart_upload_with_resume (service accept (Ok tt) true) "bk"
                 "/tmp/big.bin" "elsewhere/key" (200 * MiB) disk12)
        = EvPrint MsgResumeFound
            :: EvListUploads "elsewhere/key"
                 (ks3_get_all_multipart_uploads (service accept (Ok tt) true)
                    "elsewhere/key") :: t'.
Proof.
  assert (has_char slash "big.bin" = false) as Hn by reflexivity.
  assert (basename "/tmp/big.bin" = basename big) as Hb by reflexivity.
  destruct resume_path_depends_on_basename_only
    as (_ & _ & _ & Hpath & _ & Hres).
  destruct (Hpath "/data" "/tmp" "big.bin" Hn) as (H1 & H2 & _).
  split_and!; [exact Hn|exact H1|exact H2|exact Hb|].
  apply (Hres (service accept (Ok tt) true) "bk" big "/tmp/big.bin"
           "elsewhere/key" (200 * MiB) disk12 (File 120 (Some record12)) record12);
    [symmetry; exact Hb|reflexivity|reflexivity].
Defined.
End Witness.

(** * The further properties on example runs *)

Module ExtraWitness.
Import Examples MoreExamples.

Ltac in_run :=
  apply list_elem_of_In; vm_compute; repeat first [left; reflexivity | right].

(** The complete environment passes; an empty secret is reported. *)
Lemma validate_config_accepts_complete_environment_witness :
  outcome (_validate_config env_ok ∅) = Ok tt ∧
  outcome (_validate_config env_no_secret ∅)
    = Raise (ValueError ["KS3_SECRET_KEY"]).
Proof.
  split.
  - destruct (validate_config_accepts_complete_environment env_ok ∅)
      as (_ & _ & [_ Hok] & _).
    apply Hok. intros var Hin. vm_compute in Hin.
    destruct Hin as [<-|[<-|[<-|[<-|[]]]]]; eexists;
      (split; [vm_compute; reflexivity|discriminate]).
  - destruct (validate_config_accepts_complete_environment env_no_secret ∅)
      as (_ & _ & _ & Hraise & _).
    apply Hraise. vm_compute. discriminate.
Defined.

(** With the secret empty the constructor raises before any request. *)
Lemma init_checks_configuration_first_witness :
  outcome (__init__ (service accept (Ok tt) true) env_no_secret ∅)
    = Raise (ValueError ["KS3_SECRET_KEY"]) ∧
  trace (__init__ (service accept (Ok tt) true) env_no_secret ∅) = [] ∧
  ∃ b, env_ok !! "KS3_BUCKET" = Some b ∧
       trace (__init__ (service accept (Ok tt) true) env_ok ∅)
         = [EvGetBucket b (Ok tt)].
Proof.
  destruct (init_checks_configuration_first (service accept (Ok tt) true)
              env_no_secret ∅) as (_ & Hmiss & _).
  destruct Hmiss as [Hr Ht]; [vm_compute; discriminate|].
  destruct (init_checks_configuration_first (service accept (Ok tt) true)
              env_ok ∅) as (_ & _ & Hok).
  destruct Hok as (b & Hb & _ & Htr & _); [vm_compute; reflexivity|].
  split_and!; [exact Hr|exact Ht|].
  exists b. split; [exact Hb|exact Htr].
Defined.

(** The 1 KiB file goes in one request. *)
Lemma small_file_is_sent_in_one_request_witness :
  let run := upload_file (service accept (Ok tt) true) "bk" small "docs/small.txt"
               disk_small in
  puts (trace run) = [("docs/small.txt", small)] ∧
  uploads (trace run) = [] ∧
  outcome run = Ok (Some "ks3://bk/docs/small.txt").
Proof.
  intros run.
  destruct (small_file_is_sent_in_one_request (service accept (Ok tt) true)
              "bk" small "docs/small.txt" disk_small (File 1024 None))
    as (_ & Hp & Hu & _ & Hok & _); [reflexivity|vm_compute; discriminate|].
  split_and!; [exact Hp|exact Hu|].
  exact (Hok eq_refl).
Defined.

(** The 130 MiB file is initiated as a multipart upload, and is not put. *)
Lemma upload_file_takes_one_way_witness :
  let run := upload_file (service accept (Ok tt) true) "bk" big key disk0 in
  (∃ f, disk0 !! big = Some f ∧ 100 * 1024 * 1024 < f_len f) ∧
  (∃ f, disk_small !! small = Some f ∧ f_len f ≤ 100 * 1024 * 1024).
Proof.
  intros run.
  destruct (upload_file_takes_one_way (service accept (Ok tt) true) "bk" big
              key disk0) as [_ Hmulti].
  assert (EvInitiate key (Ok "uid-1") ∈ trace run) as Hin by in_run.
  apply Hmulti in Hin as (f & Hf & Hlen & _).
  destruct (upload_file_takes_one_way (service accept (Ok tt) true) "bk" small
              "docs/small.txt" disk_small) as [[Hput _] _].
  split; [by exists f|]. apply Hput. vm_compute. discriminate.
Defined.

(** On the 1 KiB file the two scripts do the same. *)
Lemma upload_py_agrees_below_threshold_witness :
  outcome (UploadPy.upload_file (service accept (Ok tt) true) "bk" small
             "docs/small.txt" disk_small)
  = outcome (upload_file (service accept (Ok tt) true) "bk" small
               "docs/small.txt" disk_small) ∧
  puts (trace (UploadPy.upload_file (service accept (Ok tt) true) "bk" big key
                 disk0)) = [(key, big)].
Proof.
  destruct (upload_py_agrees_below_threshold (service accept (Ok tt) true) "bk"
              small "docs/small.txt" disk_small) as (_ & Hsmall & _).
  destruct (upload_py_agrees_below_threshold (service accept (Ok tt) true) "bk"
              big key disk0) as (_ & _ & Hbig).
  split.
  - destruct (Hsmall (File 1024 None)) as [Ho _];
      [reflexivity|vm_compute; discriminate|exact Ho].
  - destruct (Hbig (File (130 * MiB) None)) as (_ & Hp & _); [reflexivity|].
    exact Hp.
Defined.

(** A url request for a key that is not there. *)
Lemma presigned_url_is_none_on_any_failure_witness :
  outcome (generate_presigned_url no_url key ∅) = Ok None ∧
  last (trace (generate_presigned_url no_url key ∅))
    = Some (EvPrint (MsgKeyNotFound key)).
Proof.
  assert (outcome (generate_presigned_url no_url key ∅) = Ok None) as Hnone
    by reflexivity.
  split; [exact Hnone|].
  destruct (presigned_url_is_none_on_any_failure no_url key ∅)
    as (_ & _ & _ & Hwhy & _).
  destruct (Hwhy Hnone) as [[_ Hl]|(e & He & _)]; [exact Hl|].
  vm_compute in He. discriminate He.
Defined.

(** [main] on the 1 KiB file asks for the url of the key it uploaded. *)
Lemma main_requests_url_after_success_witness :
  let run := main (service accept (Ok tt) true) env_ok small key disk_small in
  EvGenerateUrl key (Ok (Some "https://ks3.example/big.bin")) ∈ trace run ∧
  ∃ b a, outcome (__init__ (service accept (Ok tt) true) env_ok disk_small) = Ok b ∧
         outcome (upload_file (service accept (Ok tt) true) b small key disk_small)
           = Ok (Some a).
Proof.
  intros run.
  assert (EvGenerateUrl key (Ok (Some "https://ks3.example/big.bin")) ∈ trace run)
    as Hin by in_run.
  split; [exact Hin|].
  destruct (main_requests_url_after_success (service accept (Ok tt) true) env_ok
              small key disk_small) as [Hurl _].
  exact (proj2 (Hurl _ _ Hin)).
Defined.


(** The parts go to the session listed second, the first with id [uid-1]. *)
Lemma parts_go_to_first_session_with_upload_id_witness :
  ∃ l l1 l2,
    ks3_get_all_multipart_uploads (service accept (Ok tt) true) key = Ok l ∧
    l = l1 ++ mp1 :: l2 ∧ ∀ y, y ∈ l1 → s_id y ≠ s_id mp1.
Proof.
  destruct (parts_go_to_first_session_with_upload_id
              (service accept (Ok tt) true) "bk" big key (130 * MiB) disk0
              mp1 1 (50 * MiB) 0%nat (Ok (Some "abc"))) as (Hl & _).
  - in_run.
  - exact Hl.
Defined.

(** Part 2 is refused twice: it is sent three times, with sleeps of 1 and 2. *)
Lemma at_most_three_attempts_per_part_witness :
  let run := multipart_upload_with_resume (service flaky (Ok tt) true) "bk"
               big key (130 * MiB) disk0 in
  attempts_at 2 (trace run) = 3%nat ∧
  (attempts_at 2 (trace run) ≤ 3)%nat ∧
  sleeps (trace run) = [1; 2] ∧
  (2 = 1 ∨ 2 = 2 ∨ 2 = 4).
Proof.
  intros run.
  destruct (at_most_three_attempts_per_part (service flaky (Ok tt) true) "bk"
              big key (130 * MiB) disk0) as (Hb & _ & Hs).
  split_and!; [vm_compute; reflexivity|apply Hb|vm_compute; reflexivity|].
  apply Hs. in_run.
Defined.

(** The third part of the 130 MiB file has 30 MiB. *)
Lemma part_length_within_plan_witness :
  1 ≤ 3 ≤ part_count (130 * MiB) ∧
  0 ≤ 30 * MiB ≤ Z.min part_size (130 * MiB - (3 - 1) * part_size) ∧
  30 * MiB ≤ 52428800.
Proof.
  destruct (part_length_within_plan (service accept (Ok tt) true) "bk" big key
              (130 * MiB) disk0 mp1 3 (30 * MiB) 0%nat (Ok (Some "abc")))
    as (Hn & Hlen & Hmax & _).
  - in_run.
  - split; [exact Hn|]. split; [exact Hlen|exact Hmax].
Defined.


(** The fresh upload initiates its session first. *)
Lemma session_initiated_only_without_record_witness :
  let run := multipart_upload_with_resume (service accept (Ok tt) true) "bk"
               big key (130 * MiB) disk0 in
  disk0 !! resume_path big = None ∧
  ∃ t', trace run = EvInitiate key (Ok "uid-1") :: t' ∧
        ∀ k' x', EvInitiate k' x' ∉ t'.
Proof.
  intros run.
  destruct (session_initiated_only_without_record (service accept (Ok tt) true)
              "bk" big key (130 * MiB) disk0 key (Ok "uid-1"))
    as (Hd & _ & _ & Ht).
  - in_run.
  - split; [exact Hd|exact Ht].
Defined.

(** The resumed upload completes once all four parts are recorded. *)
Lemma completion_requested_only_when_all_parts_recorded_witness :
  let run := multipart_upload_with_resume (service accept (Ok tt) true) "bk"
               big key (200 * MiB) disk12 in
  EvComplete mp1 (Ok tt) ∈ trace run ∧
  part_count (200 * MiB) = 4 ∧
  (2 ∈ part_num <$> (recorded_parts disk12 (resume_path big)
                       ++ acks (trace run))) ∧
  (4 ∈ part_num <$> (recorded_parts disk12 (resume_path big)
                       ++ acks (trace run))).
Proof.
  intros run.
  assert (EvComplete mp1 (Ok tt) ∈ trace run) as Hin by in_run.
  destruct (completion_requested_only_when_all_parts_recorded
              (service accept (Ok tt) true) "bk" big key (200 * MiB) disk12
              mp1 (Ok tt) Hin) as (_ & Hall & _).
  split_and!; [exact Hin|reflexivity|apply Hall|apply Hall];
    vm_compute; split; discriminate.
Defined.

(** Part 3 refused for good: [None] comes after the abort. *)
Lemma none_is_returned_after_its_reason_witness :
  let run := multipart_upload_with_resume (service broken (Ok tt) true) "bk"
               big key (130 * MiB) disk0 in
  outcome run = Ok None ∧
  ∃ n mp, last (trace run) = Some (EvCancel mp (Ok tt)) ∧
          EvPrint (MsgPartGiveUp n) ∈ trace run ∧
          attempts_at n (trace run) = 3%nat.
Proof.
  intros run.
  assert (outcome run = Ok None) as Hnone by (vm_compute; reflexivity).
  split; [exact Hnone|].
  destruct (none_is_returned_after_its_reason (service broken (Ok tt) true)
              "bk" big key (130 * MiB) disk0 Hnone) as [[_ Hu]|Hgave].
  - vm_compute in Hu. discriminate Hu.
  - exact Hgave.
Defined.


(** Part 1 listed twice: its later record is kept, in the first place. *)
Lemma uploaded_parts_keeps_last_record_per_part_witness :
  (1, PartRecord 1 "new" 10) ∈ uploaded_parts_of parts_twice ∧
  dict_values (uploaded_parts_of (parts record12)) = parts record12.
Proof.
  destruct (uploaded_parts_keeps_last_record_per_part parts_twice)
    as (_ & _ & Hlast & _).
  destruct (uploaded_parts_keeps_last_record_per_part (parts record12))
    as (_ & _ & _ & _ & _ & Hsame).
  split.
  - apply Hlast. vm_compute. reflexivity.
  - apply Hsame. apply (bool_decide_unpack _). vm_compute. reflexivity.
Defined.

(** An etag without quotes is kept as it is. *)
Lemma etag_has_no_surrounding_quotes_witness :
  etag (record_of 1 10 (Some "abc")) = "abc".
Proof.
  destruct (etag_has_no_surrounding_quotes 1 10 (Some "abc"))
    as (_ & _ & _ & _ & Hplain & _).
  apply Hplain; reflexivity.
Defined.


End ExtraWitness.
